(** * react-state-sync: the synchronization core of [createSyncState]

    A shallow embedding of [createSyncState] (the compiled module with
    [getInitialValue] and [onInit], and the TypeScript source it was built
    from) and the properties of its value cell, listener registry, storage
    mirror and storage-event handler.

    JavaScript values are kept abstract: the module only ever asks of a value
    whether it is [null] and whether [typeof] says ['function'].  Everything
    the closure does to the outside (calling an updater, [storage.setItem],
    the callbacks, [window.addEventListener]) is recorded in a log, in program
    order, next to the storage content it produces. *)

From Stdlib Require Import ZArith String Ascii List DecimalString DecimalZ.
From stdpp Require Import gmap strings list.

Open Scope string_scope.
Open Scope Z_scope.
Open Scope list_scope.

(** ** Identities *)

(** A [Storage] object ([window.localStorage], [window.sessionStorage]) is
    only compared by identity and used through [getItem] and [setItem]. *)
Definition storage_id := nat.

(** The [stateUpdater] closure of one mounted hook; [useCallback(.., [])]
    keeps it the same function for the lifetime of the hook. *)
Definition updater_id := nat.

(** An [onInit] / [onUpdate] callback, known by its identity. *)
Definition callback := nat.

(** The content of all [Storage] objects: the string under a key of a store. *)
Abbreviation storage_items := (gmap (storage_id * string) string).

(** What the constructor or the event handler can raise. *)
Inductive exn :=
| InvalidConfiguration   (* Error('You must specify a key to use local storage.') *)
| CodecError.            (* whatever [deserialize] raised, e.g. a SyntaxError *)

Inductive result (A : Type) :=
| Returned (a : A)
| Thrown (e : exn).
Arguments Returned {A} a.
Arguments Thrown {A} e.

(** ** Array operations used on [updaters] *)

(** [Array.prototype.indexOf]: the first index holding [u], or [-1]. *)
Fixpoint indexOf (u : updater_id) (l : list updater_id) : Z :=
  match l with
  | [] => -1
  | x :: l' =>
      if Nat.eqb x u then 0
      else let i := indexOf u l' in if i <? 0 then -1 else i + 1
  end.

(** [Array.prototype.splice(start, 1)]: a negative [start] counts from the
    end (and is clamped at 0), a [start] beyond the end is clamped to the
    length; at most one element, the one at the resulting index, is removed. *)
Definition splice1 {A : Type} (start : Z) (l : list A) : list A :=
  let len := Z.of_nat (length l) in
  let from := if start <? 0 then Z.max (len + start) 0 else Z.min start len in
  delete (Z.to_nat from) l.

(** [Array.prototype.push]. *)
Definition push {A : Type} (x : A) (l : list A) : list A := l ++ [x].

(** ** Storage events *)

(** The fields of a [StorageEvent] the handler reads; [None] is [null]. *)
Record StorageEvent := {
  storageArea : option storage_id;
  event_key : option string;
  event_newValue : option string
}.

(** [storageEvent.storageArea === storage]: the left side is a [Storage]
    object or [null], the right side a [Storage] object, [false] or
    [undefined]; only one and the same object on both sides is equal. *)
Definition same_storage (a s : option storage_id) : bool :=
  match a, s with
  | Some x, Some y => Nat.eqb x y
  | _, _ => false
  end.

(** [storageEvent.key === key]: a string or [null] against a string or
    [undefined]. *)
Definition same_key (a k : option string) : bool :=
  match a, k with
  | Some x, Some y => String.eqb x y
  | _, _ => false
  end.

Section Core.

(** ** JavaScript values, as far as the module looks at them *)

Variable V : Type.

(** [v === null]. *)
Variable is_null : V -> bool.

(** [typeof v === 'function'], with what calling [v] on one argument
    returns (updaters are pure functions of the old value). *)
Variable typeof_function : V -> option (V -> V).

(** ** Effects, options and state *)

Inductive effect :=
| CallUpdater (u : updater_id) (newValue : V)          (* updater(newValue) *)
| SetItem (s : storage_id) (k : string) (raw : string) (* storage.setItem(k, raw) *)
| CallOnInit (cb : callback) (v : V)                   (* onInit(value) *)
| CallOnUpdate (cb : callback) (v : V)                 (* onUpdate(value) *)
| AddEventListener                                     (* window.addEventListener('storage', storageEventListener) *)
| RemoveEventListener.                                 (* window.removeEventListener('storage', storageEventListener) *)

(** [SyncStateOptions].  [storage] is [None] for [undefined] and [false];
    [deserialize] gets [None] for [null] and answers [None] when it raises.
    The codec fields always hold a function: the defaults of the parameter
    list are supplied by the caller of the model (see [default_options]). *)
Record SyncStateOptions := {
  defaultValue : V;
  key : option string;
  storage : option storage_id;
  serialize : V -> string;
  deserialize : option string -> option V;
  onInit : option callback;
  onUpdate : option callback
}.

(** The page as the closure sees it. *)
Record world := {
  items : storage_items;   (* content of the Storage objects *)
  listening : bool;        (* storageEventListener is registered on window *)
  log : list effect        (* calls made so far, oldest first *)
}.

(** The variables of the closure: [let value] and [const updaters]. *)
Record instance := {
  value : V;
  updaters : list updater_id
}.

Definition emit (es : list effect) (w : world) : world :=
  {| items := items w; listening := listening w; log := log w ++ es |}.

(** ** Truthiness tests *)

(** [!key]: an absent key and the empty string are both falsy. *)
Definition key_falsy (k : option string) : bool :=
  match k with
  | None => true
  | Some s => String.eqb s ""
  end.

(** [storage && key]: the store and key, when both are truthy. *)
Definition storage_and_key (o : SyncStateOptions) : option (storage_id * string) :=
  match storage o, key o with
  | Some s, Some k => if key_falsy (Some k) then None else Some (s, k)
  | _, _ => None
  end.

Definition has_storage_and_key (o : SyncStateOptions) : bool :=
  match storage_and_key o with
  | Some _ => true
  | None => false
  end.

(** ** The closure's functions *)

(** [updaters.forEach((updater) => updater(newValue))]. *)
Definition callUpdaters (i : instance) (newValue : V) (w : world) : world :=
  emit (map (fun u => CallUpdater u newValue) (updaters i)) w.

(** [if (storage && key) storage.setItem(key, serialize(newValue))]. *)
Definition persistToStorage (o : SyncStateOptions) (newValue : V) (w : world) : world :=
  match storage_and_key o with
  | Some (s, k) =>
      let raw := serialize o newValue in
      {| items := <[(s, k) := raw]> (items w);
         listening := listening w;
         log := log w ++ [SetItem s k raw] |}
  | None => w
  end.

(** [getInitialValue]: the stored entry when it decodes to a non-null
    value, else the default, persisted. *)
Definition getInitialValue (o : SyncStateOptions) (w : world) : result (V * world) :=
  let fallback := Returned (defaultValue o, persistToStorage o (defaultValue o) w) in
  match storage_and_key o with
  | Some (s, k) =>
      match deserialize o (items w !! (s, k)) with
      | None => Thrown CodecError
      | Some storageValue =>
          if is_null storageValue then fallback else Returned (storageValue, w)
      end
  | None => fallback
  end.

(** [onInit?.(value)]. *)
Definition callOnInit (o : SyncStateOptions) (v : V) (w : world) : world :=
  match onInit o with
  | Some cb => emit [CallOnInit cb v] w
  | None => w
  end.

(** The body of [createSyncState] up to the returned pair of functions,
    run on a page whose storages hold [items0]. *)
Definition createSyncState (o : SyncStateOptions) (items0 : storage_items)
  : result (instance * world) :=
  if match storage o with Some _ => key_falsy (key o) | None => false end
  then Thrown InvalidConfiguration
  else
    match getInitialValue o {| items := items0; listening := false; log := [] |} with
    | Thrown e => Thrown e
    | Returned (v, w) =>
        Returned ({| value := v; updaters := [] |}, callOnInit o v w)
    end.

(** The same body in the TypeScript source, an earlier revision without
    [getInitialValue] and [onInit]: [persistToStorage(defaultValue)], then
    [let value = defaultValue].  (Its test [storage instanceof Storage] is
    the test [storage] above for an option that holds a [Storage] object.) *)
Definition createSyncState_ts (o : SyncStateOptions) (items0 : storage_items)
  : result (instance * world) :=
  if match storage o with Some _ => key_falsy (key o) | None => false end
  then Thrown InvalidConfiguration
  else
    Returned ({| value := defaultValue o; updaters := [] |},
              persistToStorage o (defaultValue o)
                {| items := items0; listening := false; log := [] |}).

(** [storageEventListener]. *)
Definition storageEventListener (o : SyncStateOptions) (storageEvent : StorageEvent)
    (i : instance) (w : world) : result (instance * world) :=
  if same_storage (storageArea storageEvent) (storage o)
     && same_key (event_key storageEvent) (key o)
  then
    match deserialize o (event_newValue storageEvent) with
    | None => Thrown CodecError
    | Some newValue =>
        if is_null newValue then Returned (i, w)
        else
          let i' := {| value := newValue; updaters := updaters i |} in
          Returned (i', callUpdaters i' newValue w)
    end
  else Returned (i, w).

(** [setSyncValue] of the sources: compute, assign, call the updaters,
    persist. *)
Definition setSyncValue (o : SyncStateOptions) (newValue : V)
    (i : instance) (w : world) : instance * world :=
  let v :=
    match typeof_function newValue with
    | Some f => f (value i)
    | None => newValue
    end in
  let i' := {| value := v; updaters := updaters i |} in
  (i', persistToStorage o v (callUpdaters i' v w)).

(** [onUpdate?.(value)]. *)
Definition callOnUpdate (o : SyncStateOptions) (v : V) (w : world) : world :=
  match onUpdate o with
  | Some cb => emit [CallOnUpdate cb v] w
  | None => w
  end.

(** Modelled from the spec: the body of [setSyncValue] in the revision that
    accepts [onUpdate] is not among the sources (only its type declaration
    and its test are).  Steps 1 to 4 of the update operation are the
    [setSyncValue] above; step 5 invokes [onUpdate], if present, with the
    new value, after listener notification and persistence. *)
Definition setSyncValue_onUpdate (o : SyncStateOptions) (newValue : V)
    (i : instance) (w : world) : instance * world :=
  let '(i', w') := setSyncValue o newValue i w in
  (i', callOnUpdate o (value i') w').

(** ** [useSyncValue] *)

(** The initial hook state, [useState(() => mapper ? mapper(value) : value)]. *)
Definition useSyncValue_state (mapper : option (V -> V)) (i : instance) : V :=
  match mapper with
  | Some m => m (value i)
  | None => value i
  end.

(** What [stateUpdater] sets the hook state to:
    [mapperRef.current ? mapperRef.current(newValue) : newValue]. *)
Definition stateUpdater (mapperRef : option (V -> V)) (newValue : V) : V :=
  match mapperRef with
  | Some m => m newValue
  | None => newValue
  end.

(** The effect of the hook whose [stateUpdater] is [u]. *)
Definition useSyncValue_effect (o : SyncStateOptions) (u : updater_id)
    (i : instance) (w : world) : instance * world :=
  let i' := {| value := value i; updaters := push u (updaters i) |} in
  if Nat.eqb (length (updaters i')) 1 && has_storage_and_key o
  then (i', {| items := items w; listening := true; log := log w ++ [AddEventListener] |})
  else (i', w).

(** The teardown returned by that effect. *)
Definition useSyncValue_cleanup (o : SyncStateOptions) (u : updater_id)
    (i : instance) (w : world) : instance * world :=
  let i' := {| value := value i;
               updaters := splice1 (indexOf u (updaters i)) (updaters i) |} in
  if Nat.eqb (length (updaters i')) 0 && has_storage_and_key o
  then (i', {| items := items w; listening := false; log := log w ++ [RemoveEventListener] |})
  else (i', w).

(** ** Histories *)

(** What can happen to a constructed instance. *)
Inductive op :=
| Update (newValue : V)         (* setSyncValue(newValue) *)
| External (ev : StorageEvent)  (* the window dispatches a storage event *)
| Mount (u : updater_id)        (* a hook's effect runs *)
| Unmount (u : updater_id).     (* a hook's teardown runs *)

(** The window calls [storageEventListener] only while it is registered; an
    exception raised inside the handler leaves the closure as it was. *)
Definition dispatch (o : SyncStateOptions) (ev : StorageEvent)
    (i : instance) (w : world) : instance * world :=
  if listening w then
    match storageEventListener o ev i w with
    | Returned s => s
    | Thrown _ => (i, w)
    end
  else (i, w).

Definition step (o : SyncStateOptions) (s : instance * world) (a : op)
  : instance * world :=
  match a with
  | Update newValue => setSyncValue o newValue (fst s) (snd s)
  | External ev => dispatch o ev (fst s) (snd s)
  | Mount u => useSyncValue_effect o u (fst s) (snd s)
  | Unmount u => useSyncValue_cleanup o u (fst s) (snd s)
  end.

Definition run (o : SyncStateOptions) (ops : list op) (s : instance * world)
  : instance * world :=
  fold_left (step o) ops s.

(** ** Reading the log *)

(** The calls of [storage.setItem], in order. *)
Definition store_writes (l : list effect) : list (storage_id * string * string) :=
  omap (fun e => match e with SetItem s k raw => Some (s, k, raw) | _ => None end) l.

(** The calls of updaters, in order. *)
Definition notifications (l : list effect) : list (updater_id * V) :=
  omap (fun e => match e with CallUpdater u v => Some (u, v) | _ => None end) l.

(** The calls of [onUpdate], in order. *)
Definition onUpdate_calls (l : list effect) : list (callback * V) :=
  omap (fun e => match e with CallOnUpdate cb v => Some (cb, v) | _ => None end) l.

(** ** The storage listener and the registry *)

(** The storage listener is registered exactly while a store and key are
    configured and the registry is not empty. *)
Definition listener_invariant (o : SyncStateOptions) (s : instance * world) : Prop :=
  listening (snd s) = has_storage_and_key o && bool_decide (updaters (fst s) ≠ []).

(** ** Hook lifecycles *)

(** The hooks mounted and not yet unmounted, in mounting order. *)
Fixpoint attached (ops : list op) (reg : list updater_id) : list updater_id :=
  match ops with
  | [] => reg
  | Mount u :: ops' => attached ops' (reg ++ [u])
  | Unmount u :: ops' => attached ops' (filter (λ x, x ≠ u) reg)
  | _ :: ops' => attached ops' reg
  end.

(** React runs the effect of a hook that is not mounted and the teardown of
    a hook that is: every teardown follows its own effect, once. *)
Fixpoint lifecycle (ops : list op) (reg : list updater_id) : bool :=
  match ops with
  | [] => true
  | Mount u :: ops' => bool_decide (u ∉ reg) && lifecycle ops' (reg ++ [u])
  | Unmount u :: ops' =>
      bool_decide (u ∈ reg) && lifecycle ops' (filter (λ x, x ≠ u) reg)
  | _ :: ops' => lifecycle ops' reg
  end.

(** ** Two tabs on one store *)

(** The storage event the other documents of the origin get for a write. *)
Definition storage_event_of (write : storage_id * string * string) : StorageEvent :=
  {| storageArea := Some write.1.1;
     event_key := Some write.1.2;
     event_newValue := Some write.2 |}.

(** A tab sees a write of a sibling tab: the shared store holds the new
    string, and the window dispatches a storage event unless the entry
    already held that string. *)
Definition receive (o : SyncStateOptions) (b : instance * world)
    (write : storage_id * string * string) : instance * world :=
  let w := {| items := <[(write.1.1, write.1.2) := write.2]> (items (snd b));
              listening := listening (snd b);
              log := log (snd b) |} in
  if bool_decide (items (snd b) !! (write.1.1, write.1.2) = Some write.2)
  then (fst b, w)
  else dispatch o (storage_event_of write) (fst b) w.

(** Tab [a] updates; tab [b] receives the writes this update made. *)
Definition propagate (o : SyncStateOptions) (newValue : V)
    (a b : instance * world) : (instance * world) * (instance * world) :=
  let a' := setSyncValue o newValue (fst a) (snd a) in
  let writes := drop (length (store_writes (log (snd a))))
                     (store_writes (log (snd a'))) in
  (a', fold_left (receive o) writes b).

(** ** More readings of the log *)

(** The calls of [onInit], in order. *)
Definition onInit_calls (l : list effect) : list (callback * V) :=
  omap (fun e => match e with CallOnInit cb v => Some (cb, v) | _ => None end) l.

(** The calls an instance of options [o] makes after construction: updater
    calls, [setItem] on its own store and key, and the registration and
    removal of its storage listener when it has a store and key. *)
Definition instance_effect (o : SyncStateOptions) (e : effect) : Prop :=
  match e with
  | CallUpdater _ _ => True
  | SetItem s k _ => storage_and_key o = Some (s, k)
  | AddEventListener | RemoveEventListener => has_storage_and_key o = true
  | CallOnInit _ _ | CallOnUpdate _ _ => False
  end.

(** ** Mounted hooks *)

(** What one component keeps between renders of [useSyncValue]:
    [mapperRef.current] and the [state] of [useState]. *)
Record hook := {
  mapperRef : option (V -> V);
  hook_state : V
}.

(** The first render: [useState] runs its initializer and
    [mapperRef.current = mapper]. *)
Definition useSyncValue_render (mapper : option (V -> V)) (i : instance) : hook :=
  {| mapperRef := mapper; hook_state := useSyncValue_state mapper i |}.

(** A later render: [useState] keeps the state, and
    [mapperRef.current = mapper] again. *)
Definition useSyncValue_rerender (mapper : option (V -> V)) (h : hook) : hook :=
  {| mapperRef := mapper; hook_state := hook_state h |}.

(** [stateUpdater(newValue)] on the hook it belongs to. *)
Definition call_stateUpdater (newValue : V) (h : hook) : hook :=
  {| mapperRef := mapperRef h; hook_state := stateUpdater (mapperRef h) newValue |}.

(** The hooks of the page, by their [stateUpdater]; a call of an updater
    whose component is gone sets nothing. *)
Definition apply_effect (hooks : gmap updater_id hook) (e : effect)
  : gmap updater_id hook :=
  match e with
  | CallUpdater u v => alter (call_stateUpdater v) u hooks
  | _ => hooks
  end.

Definition deliver (es : list effect) (hooks : gmap updater_id hook)
  : gmap updater_id hook :=
  fold_left apply_effect es hooks.

(** What can happen on a page with its components.  A component first
    renders (its [useState] initializer reads [value]); its effect, which
    registers the updater, runs at a later moment; unmounting runs the
    teardown and drops the component. *)
Inductive page_op :=
| PageUpdate (newValue : V)
| PageExternal (ev : StorageEvent)
| PageFirstRender (u : updater_id) (mapper : option (V -> V))
| PageEffect (u : updater_id)
| PageUnmount (u : updater_id)
| PageRender (u : updater_id) (mapper : option (V -> V)).

Definition page_step (o : SyncStateOptions)
    (p : instance * world * gmap updater_id hook) (a : page_op)
  : instance * world * gmap updater_id hook :=
  let i := fst (fst p) in
  let w := snd (fst p) in
  let hooks := snd p in
  match a with
  | PageUpdate newValue =>
      let s' := setSyncValue o newValue i w in
      (s', deliver (drop (length (log w)) (log (snd s'))) hooks)
  | PageExternal ev =>
      let s' := dispatch o ev i w in
      (s', deliver (drop (length (log w)) (log (snd s'))) hooks)
  | PageFirstRender u mapper =>
      (fst p, <[u := useSyncValue_render mapper i]> hooks)
  | PageEffect u => (useSyncValue_effect o u i w, hooks)
  | PageUnmount u => (useSyncValue_cleanup o u i w, delete u hooks)
  | PageRender u mapper => (fst p, alter (useSyncValue_rerender mapper) u hooks)
  end.

Definition page_run (o : SyncStateOptions) (ops : list page_op)
    (p : instance * world * gmap updater_id hook)
  : instance * world * gmap updater_id hook :=
  fold_left (page_step o) ops p.

(** Every registered hook shows its own projection of the value cell. *)
Definition hooks_current (p : instance * world * gmap updater_id hook) : Prop :=
  forall u h, u ∈ updaters (fst (fst p)) -> snd p !! u = Some h ->
    hook_state h = stateUpdater (mapperRef h) (value (fst (fst p))).

(** A history without storage events. *)
Definition local (a : op) : bool :=
  match a with
  | External _ => false
  | _ => true
  end.

(** The updates of a history. *)
Definition is_update (a : op) : bool :=
  match a with
  | Update _ => true
  | _ => false
  end.

(** A history in React's order: an effect runs for a component that has
    rendered and waits for it, no update and no storage event comes in while
    a rendered component waits for its effect, and no component is rendered
    again.  [pending] lists the components that wait for their effect. *)
Fixpoint prompt (pending : list updater_id) (ops : list page_op) : bool :=
  match ops with
  | [] => true
  | PageFirstRender u _ :: ops' => prompt (u :: pending) ops'
  | PageEffect u :: ops' =>
      bool_decide (u ∈ pending) && prompt (filter (fun x => x <> u) pending) ops'
  | PageUpdate _ :: ops' | PageExternal _ :: ops' =>
      match pending with
      | [] => prompt [] ops'
      | _ :: _ => false
      end
  | PageUnmount _ :: ops' => prompt pending ops'
  | PageRender _ _ :: _ => false
  end.

(** Every hook that is registered, or waits for its effect, shows its own
    projection of the value cell. *)
Definition hooks_current_with (pending : list updater_id)
    (p : instance * world * gmap updater_id hook) : Prop :=
  forall u h, u ∈ updaters (fst (fst p)) \/ u ∈ pending -> snd p !! u = Some h ->
    hook_state h = stateUpdater (mapperRef h) (value (fst (fst p))).

End Core.

Arguments defaultValue {V} s.
Arguments key {V} s.
Arguments storage {V} s.
Arguments serialize {V} s _.
Arguments deserialize {V} s _.
Arguments onInit {V} s.
Arguments onUpdate {V} s.
Arguments items {V} w.
Arguments listening {V} w.
Arguments log {V} w.
Arguments value {V} i.
Arguments updaters {V} i.
Arguments emit {V} es w.
Arguments storage_and_key {V} o.
Arguments has_storage_and_key {V} o.
Arguments callUpdaters {V} i newValue w.
Arguments persistToStorage {V} o newValue w.
Arguments getInitialValue {V} is_null o w.
Arguments callOnInit {V} o v w.
Arguments callOnUpdate {V} o v w.
Arguments createSyncState {V} is_null o items0.
Arguments storageEventListener {V} is_null o storageEvent i w.
Arguments setSyncValue {V} typeof_function o newValue i w.
Arguments setSyncValue_onUpdate {V} typeof_function o newValue i w.
Arguments useSyncValue_state {V} mapper i.
Arguments stateUpdater {V} mapperRef newValue.
Arguments useSyncValue_effect {V} o u i w.
Arguments useSyncValue_cleanup {V} o u i w.
Arguments dispatch {V} is_null o ev i w.
Arguments step {V} is_null typeof_function o s a.
Arguments run {V} is_null typeof_function o ops s.
Arguments listener_invariant {V} o s.
Arguments createSyncState_ts {V} o items0.
Arguments attached {V} ops reg.
Arguments lifecycle {V} ops reg.
Arguments receive {V} is_null o b write.
Arguments propagate {V} is_null typeof_function o newValue a b.
Arguments onInit_calls {V} l.
Arguments instance_effect {V} o e.
Arguments mapperRef {V} h.
Arguments hook_state {V} h.
Arguments useSyncValue_render {V} mapper i.
Arguments useSyncValue_rerender {V} mapper h.
Arguments call_stateUpdater {V} newValue h.
Arguments apply_effect {V} hooks e.
Arguments deliver {V} es hooks.
Arguments PageUpdate {V} newValue.
Arguments PageExternal {V} ev.
Arguments PageFirstRender {V} u mapper.
Arguments PageEffect {V} u.
Arguments PageUnmount {V} u.
Arguments PageRender {V} u mapper.
Arguments page_step {V} is_null typeof_function o p a.
Arguments page_run {V} is_null typeof_function o ops p.
Arguments hooks_current {V} p.
Arguments local {V} a.
Arguments is_update {V} a.
Arguments prompt {V} pending ops.
Arguments hooks_current_with {V} pending p.
Arguments store_writes {V} l.
Arguments notifications {V} l.
Arguments onUpdate_calls {V} l.
Arguments CallUpdater {V} u newValue.
Arguments SetItem {V} s k raw.
Arguments CallOnInit {V} cb v.
Arguments CallOnUpdate {V} cb v.
Arguments AddEventListener {V}.
Arguments RemoveEventListener {V}.
Arguments Update {V} newValue.
Arguments External {V} ev.
Arguments Mount {V} u.
Arguments Unmount {V} u.

(** ** The default codec

    [serialize = JSON.stringify] and
    [deserialize = stringValue => JSON.parse(stringValue || 'null')], over
    the two functions of the host, which are not code of this module. *)

Section DefaultCodec.

Variable V : Type.

(** [JSON.stringify]; [None] is [undefined]. *)
Variable stringify : V -> option string.

(** [JSON.parse]; [None] is a raised SyntaxError. *)
Variable parse : string -> option V.

(** [storage.setItem] turns an [undefined] second argument into the string
    ["undefined"]. *)
Definition default_serialize_with (v : V) : string :=
  match stringify v with
  | Some s => s
  | None => "undefined"
  end.

(** [stringValue || 'null']: [null] and the empty string are falsy. *)
Definition default_deserialize_with (stringValue : option string) : option V :=
  parse
    match stringValue with
    | Some s => if String.eqb s "" then "null" else s
    | None => "null"
    end.

Definition default_options_with (d : V) (k : option string) (s : option storage_id)
  : SyncStateOptions V :=
  {| defaultValue := d; key := k; storage := s;
     serialize := default_serialize_with; deserialize := default_deserialize_with;
     onInit := None; onUpdate := None |}.

End DefaultCodec.

Arguments default_serialize_with {V} stringify v.
Arguments default_deserialize_with {V} parse stringValue.
Arguments default_options_with {V} stringify parse d k s.

(** ** A universe of JavaScript values for the examples

    [null], booleans, integers (numbers without fraction, written in plain
    decimal by [JSON.stringify]), [NaN], and arrow functions [v => f(+v)]
    doing integer arithmetic on their argument. *)

Inductive jsval :=
| JNull
| JBool (b : bool)
| JNum (n : Z)
| JNaN
| JFun (f : Z -> Z).

Definition js_is_null (v : jsval) : bool :=
  match v with
  | JNull => true
  | _ => false
  end.

(** [ToNumber]: [null] is 0, [true] is 1; a function is not a number. *)
Definition ToNumber (v : jsval) : option Z :=
  match v with
  | JNull => Some 0
  | JBool b => Some (if b then 1 else 0)
  | JNum n => Some n
  | JNaN => None
  | JFun _ => None
  end.

Definition js_typeof_function (v : jsval) : option (jsval -> jsval) :=
  match v with
  | JFun f =>
      Some (fun x => match ToNumber x with Some n => JNum (f n) | None => JNaN end)
  | _ => None
  end.

(** ** The host's JSON functions on this universe

    The two functions below stand in for [JSON.stringify] and [JSON.parse]
    in the examples.  They agree with the host on the values and texts of
    this universe: [null], booleans, [NaN], functions and integers of
    magnitude below 2^53 (the model does not tell [-0] from [0], which [===]
    and [JSON.stringify] do not either), and on every text that is no JSON
    text, which raises.  JSON texts of other values (strings, arrays,
    objects, numbers with a fraction or an exponent) are outside of what
    they model; no statement below evaluates them there. *)

(** [JSON.stringify] on this universe; [None] is [undefined]. *)
Definition JSON_stringify (v : jsval) : option string :=
  match v with
  | JNull => Some "null"
  | JBool b => Some (if b then "true" else "false")
  | JNum n => Some (NilZero.string_of_int (Z.to_int n))
  | JNaN => Some "null"
  | JFun _ => None
  end.

Definition json_whitespace (a : ascii) : bool :=
  match nat_of_ascii a with
  | 32%nat | 9%nat | 10%nat | 13%nat => true
  | _ => false
  end.

Fixpoint skip_whitespace (l : list ascii) : list ascii :=
  match l with
  | a :: l' => if json_whitespace a then skip_whitespace l' else l
  | [] => []
  end.

Definition trim (text : string) : string :=
  string_of_list_ascii
    (rev (skip_whitespace (rev (skip_whitespace (list_ascii_of_string text))))).

(** A JSON integer literal: an optional minus sign and decimal digits
    without leading zeros. *)
Definition parse_integer (t : string) : option jsval :=
  match NilEmpty.int_of_string t with
  | Some d =>
      let n := Z.of_int d in
      if String.eqb (NilZero.string_of_int (Z.to_int n)) t || String.eqb t "-0"
      then Some (JNum n) else None
  | None => None
  end.

(** [JSON.parse] on the texts of this universe; [None] is a raised
    SyntaxError.  (Texts of strings, arrays, objects and numbers with a
    fraction or exponent denote values outside the universe and are not
    used.) *)
Definition JSON_parse (text : string) : option jsval :=
  let t := trim text in
  if String.eqb t "null" then Some JNull
  else if String.eqb t "true" then Some (JBool true)
  else if String.eqb t "false" then Some (JBool false)
  else parse_integer t.

(** [serialize = JSON.stringify] on this universe. *)
Definition default_serialize (v : jsval) : string :=
  default_serialize_with JSON_stringify v.

(** [deserialize = stringValue => JSON.parse(stringValue || 'null')] on
    this universe. *)
Definition default_deserialize (stringValue : option string) : option jsval :=
  default_deserialize_with JSON_parse stringValue.

(** The options with the codec left to its defaults. *)
Definition default_options (d : jsval) (k : option string) (s : option storage_id)
  : SyncStateOptions jsval :=
  {| defaultValue := d; key := k; storage := s;
     serialize := default_serialize; deserialize := default_deserialize;
     onInit := None; onUpdate := None |}.

(** [window.localStorage] and [window.sessionStorage]. *)
Definition localStorage : storage_id := 0%nat.
Definition sessionStorage : storage_id := 1%nat.


(** The counter of the README: [createSyncState({ defaultValue: 0 })]. *)
Definition counter : SyncStateOptions jsval := default_options (JNum 0) None None.

(** ** Facts about the array operations *)


Lemma indexOf_absent (u : updater_id) (l : list updater_id) :
  u ∉ l → indexOf u l = -1.
Proof.
  induction l as [|x l IH]; intros Hn; simpl; [done|].
  apply not_elem_of_cons in Hn as [Hne Hn].
  destruct (Nat.eqb_spec x u) as [->|_]; [done|].
  rewrite (IH Hn). reflexivity.
Qed.

Lemma indexOf_present (u : updater_id) (l : list updater_id) :
  u ∈ l →
  ∃ n : nat, indexOf u l = Z.of_nat n ∧ l !! n = Some u ∧ u ∉ take n l.
Proof.
  induction l as [|x l IH]; intros Hin; [by apply elem_of_nil in Hin|].
  simpl. destruct (Nat.eqb_spec x u) as [->|Hne].
  - exists 0%nat. split_and!; [done|done|]. simpl. apply not_elem_of_nil.
  - apply elem_of_cons in Hin as [->|Hin]; [done|].
    destruct (IH Hin) as (n & Hn & Hl & Ht).
    exists (S n). rewrite Hn.
    destruct (Z.ltb_spec (Z.of_nat n) 0); [lia|].
    split_and!; [lia|done|].
    simpl. apply not_elem_of_cons. split; [congruence|done].
Qed.

Lemma splice1_absent {A : Type} (l : list A) :
  splice1 (-1) l = take (length l - 1) l.
Proof.
  unfold splice1. simpl (-1 <? 0).
  destruct l as [|x l] using rev_ind; [done|].
  rewrite length_app. simpl.
  replace (Z.to_nat (Z.max (Z.of_nat (length l + 1) + -1) 0)) with (length l) by lia.
  replace (length l + 1 - 1)%nat with (length l) by lia.
  rewrite take_app_length, delete_middle. apply app_nil_r.
Qed.

Lemma splice1_at {A : Type} (n : nat) (l : list A) :
  (n < length l)%nat → splice1 (Z.of_nat n) l = delete n l.
Proof.
  intros Hn. unfold splice1.
  destruct (Z.ltb_spec (Z.of_nat n) 0); [lia|].
  f_equal. lia.
Qed.

Lemma filter_absent (u : updater_id) (l : list updater_id) :
  u ∉ l → filter (λ x, x ≠ u) l = l.
Proof.
  induction l as [|x l IH]; intros Hn; [done|].
  apply not_elem_of_cons in Hn as [Hne Hn].
  rewrite filter_cons_True by done. f_equal. by apply IH.
Qed.

Lemma delete_first_occurrence (u : updater_id) (n : nat) (l : list updater_id) :
  NoDup l → l !! n = Some u → delete n l = filter (λ x, x ≠ u) l.
Proof.
  intros Hnd. revert n.
  induction Hnd as [|x l Hx Hnd IH]; intros n Hl; [done|].
  destruct n as [|n]; simpl in *.
  - injection Hl as ->. rewrite filter_cons_False by (intros ?; done).
    symmetry. by apply filter_absent.
  - rewrite filter_cons_True.
    + f_equal. by apply IH.
    + intros ->. apply Hx. apply list_elem_of_lookup. eauto.
Qed.

Lemma omap_map_None {A B C : Type} (f : B → option C) (g : A → B) (l : list A) :
  (∀ a, f (g a) = None) → omap f (map g l) = [].
Proof. intros H. induction l as [|a l IH]; simpl; [done|]. by rewrite H. Qed.

(** ** The update operation *)

Section UpdateFacts.

Context {V : Type} (is_null : V → bool) (typeof_function : V → option (V → V)).

(** The value [setSyncValue] assigns: the result of the call for a
    function, the argument itself otherwise. *)
Lemma setSyncValue_value (o : SyncStateOptions V) (newValue : V)
    (i : instance V) (w : world V) :
  value (fst (setSyncValue typeof_function o newValue i w)) =
    match typeof_function newValue with
    | Some f => f (value i)
    | None => newValue
    end.
Proof. reflexivity. Qed.

Lemma setSyncValue_updaters (o : SyncStateOptions V) (newValue : V)
    (i : instance V) (w : world V) :
  updaters (fst (setSyncValue typeof_function o newValue i w)) = updaters i.
Proof. reflexivity. Qed.

(** The calls of one update: the updaters in registry order, then the
    store write when a store and key are configured. *)
Lemma setSyncValue_log (o : SyncStateOptions V) (newValue : V)
    (i : instance V) (w : world V) :
  let s' := setSyncValue typeof_function o newValue i w in
  log (snd s') =
    log w ++ map (λ u, CallUpdater u (value (fst s'))) (updaters i)
          ++ match storage_and_key o with
             | Some (s, k) => [SetItem s k (serialize o (value (fst s')))]
             | None => []
             end.
Proof.
  unfold setSyncValue, persistToStorage, callUpdaters, emit. simpl.
  destruct (storage_and_key o) as [[s k]|]; simpl.
  - by rewrite <- app_assoc.
  - by rewrite app_nil_r.
Qed.


Lemma setSyncValue_listening (o : SyncStateOptions V) (newValue : V)
    (i : instance V) (w : world V) :
  listening (snd (setSyncValue typeof_function o newValue i w)) = listening w.
Proof.
  unfold setSyncValue, persistToStorage, callUpdaters, emit. simpl.
  by destruct (storage_and_key o) as [[s k]|].
Qed.

End UpdateFacts.

(** C1.  Every update applies a function argument to the current content of
    the value cell, overwrites the cell with the result (or with the literal
    argument), and calls every registered updater with that raw new value in
    registration order before the store write.  On the counter with default
    0 and one mounted hook: [update(1)] is observed as 1, [update(v => v+1)]
    as 2, [update(v => v*3)] as 6. *)
Theorem setSyncValue_notifies_in_order_then_persists :
  (∀ (V : Type) (typeof_function : V → option (V → V))
     (o : SyncStateOptions V) (newValue : V) (i : instance V) (w : world V),
     let s' := setSyncValue typeof_function o newValue i w in
     (∀ f, typeof_function newValue = Some f → value (fst s') = f (value i)) ∧
     (typeof_function newValue = None → value (fst s') = newValue) ∧
     updaters (fst s') = updaters i ∧
     log (snd s') =
       log w ++ map (λ u, CallUpdater u (value (fst s'))) (updaters i)
             ++ match storage_and_key o with
                | Some (s, k) => [SetItem s k (serialize o (value (fst s')))]
                | None => []
                end) ∧
  (∃ s0,
     createSyncState js_is_null counter ∅ = Returned s0 ∧
     useSyncValue_state None (fst s0) = JNum 0 ∧
     let go := run js_is_null js_typeof_function counter in
     let s1 := go [Mount 1%nat; Update (JNum 1)] s0 in
     let s2 := go [Update (JFun (λ v, v + 1))] s1 in
     let s3 := go [Update (JFun (λ v, v * 3))] s2 in
     useSyncValue_state None (fst s1) = JNum 1 ∧
     useSyncValue_state None (fst s2) = JNum 2 ∧
     useSyncValue_state None (fst s3) = JNum 6 ∧
     notifications (log (snd s3)) =
       [(1%nat, JNum 1); (1%nat, JNum 2); (1%nat, JNum 6)]).
Proof.
  split.
  - intros V tf o newValue i w s'. subst s'.
    rewrite setSyncValue_value, setSyncValue_updaters.
    split_and!.
    + by intros f ->.
    + by intros ->.
    + done.
    + apply (setSyncValue_log tf o newValue i w).
  - eexists. split; [reflexivity|]. by vm_compute.
Qed.

(** ** Construction *)

Section ConstructionFacts.

Context {V : Type} (is_null : V → bool).

Lemma key_falsy_spec (k : option string) :
  key_falsy k = true ↔ k = None ∨ k = Some "".
Proof.
  destruct k as [s|]; simpl.
  - rewrite String.eqb_eq. split; [intros ->; by right|].
    intros [?|[= ->]]; done.
  - split; [by left|done].
Qed.

Lemma storage_and_key_Some (o : SyncStateOptions V) (s : storage_id) (k : string) :
  storage_and_key o = Some (s, k) ↔
  storage o = Some s ∧ key o = Some k ∧ k ≠ "".
Proof.
  unfold storage_and_key, key_falsy.
  destruct (storage o) as [s'|], (key o) as [k'|]; try (split; [done|intros (?&?&?); done]).
  destruct (String.eqb_spec k' ""); split.
  - done.
  - intros ([= ->] & [= ->] & ?). done.
  - by intros [= -> ->].
  - by intros ([= ->] & [= ->] & ?).
Qed.


Lemma persistToStorage_writes (o : SyncStateOptions V) (v : V) (w : world V) :
  store_writes (log (persistToStorage o v w)) =
    store_writes (log w) ++
      match storage_and_key o with
      | Some (s, k) => [(s, k, serialize o v)]
      | None => []
      end.
Proof.
  unfold persistToStorage, store_writes.
  destruct (storage_and_key o) as [[s k]|]; simpl.
  - by rewrite omap_app.
  - by rewrite app_nil_r.
Qed.

Lemma callOnInit_items (o : SyncStateOptions V) (v : V) (w : world V) :
  items (callOnInit o v w) = items w.
Proof. unfold callOnInit. by destruct (onInit o). Qed.

Lemma callOnInit_listening (o : SyncStateOptions V) (v : V) (w : world V) :
  listening (callOnInit o v w) = listening w.
Proof. unfold callOnInit. by destruct (onInit o). Qed.

Lemma callOnInit_writes (o : SyncStateOptions V) (v : V) (w : world V) :
  store_writes (log (callOnInit o v w)) = store_writes (log w).
Proof.
  unfold callOnInit, store_writes. destruct (onInit o); [|done].
  simpl. rewrite omap_app. simpl. apply app_nil_r.
Qed.

(** A constructed instance starts with an empty registry and without the
    storage listener. *)
Lemma createSyncState_fresh (o : SyncStateOptions V) (items0 : storage_items)
    (s0 : instance V * world V) :
  createSyncState is_null o items0 = Returned s0 →
  updaters (fst s0) = [] ∧ listening (snd s0) = false.
Proof.
  unfold createSyncState.
  destruct (match storage o with Some _ => key_falsy (key o) | None => false end);
    [done|].
  destruct (getInitialValue is_null o _) as [[v w]|e] eqn:Hg; [|done].
  intros [= <-]. simpl. split; [done|].
  rewrite callOnInit_listening.
  unfold getInitialValue, persistToStorage in Hg.
  destruct (storage_and_key o) as [[s k]|]; simpl in Hg.
  - destruct (deserialize o _) as [sv|]; [|done].
    destruct (is_null sv); by injection Hg as <- <-.
  - by injection Hg as <- <-.
Qed.

(** What construction rejects. *)
Lemma createSyncState_rejects (o : SyncStateOptions V) (items0 : storage_items) :
  createSyncState is_null o items0 = Thrown InvalidConfiguration ↔
  is_Some (storage o) ∧ key_falsy (key o) = true.
Proof.
  unfold createSyncState. destruct (storage o) as [s|] eqn:Hs.
  - destruct (key_falsy (key o)) eqn:Hk.
    + split; [intros _; split; [by eexists|done]|done].
    + split; [|by intros [_ ?]].
      assert (storage_and_key o = Some (s, default "" (key o))) as Hsk.
      { unfold storage_and_key. rewrite Hs. destruct (key o); [|done].
        rewrite Hk. done. }
      unfold getInitialValue. rewrite Hsk.
      destruct (deserialize o _) as [sv|]; [|done].
      destruct (is_null sv); done.
  - split; [|by intros [[? [=]] _]].
    unfold getInitialValue, storage_and_key. rewrite Hs. done.
Qed.

(** The two revisions construct the same instance whenever the later one
    falls back to the default (and no [onInit] is given). *)
Lemma createSyncState_ts_fallback (o : SyncStateOptions V) (items0 : storage_items) :
  onInit o = None →
  (∀ s k, storage_and_key o = Some (s, k) →
          ∃ v, deserialize o (items0 !! (s, k)) = Some v ∧ is_null v = true) →
  createSyncState is_null o items0 = createSyncState_ts o items0.
Proof.
  intros Hi Hd. unfold createSyncState, createSyncState_ts.
  destruct (match storage o with Some _ => key_falsy (key o) | None => false end);
    [done|].
  unfold getInitialValue, callOnInit. rewrite Hi.
  destruct (storage_and_key o) as [[s k]|] eqn:Hsk; [|done].
  cbn [items]. destruct (Hd s k eq_refl) as (v & -> & ->). done.
Qed.

(** Construction returns when it is not rejected and the decoder returns. *)
Lemma createSyncState_returns (o : SyncStateOptions V) (items0 : storage_items) :
  match storage o with Some _ => key_falsy (key o) | None => false end = false →
  (∀ s k, storage_and_key o = Some (s, k) →
          is_Some (deserialize o (items0 !! (s, k)))) →
  ∃ s0, createSyncState is_null o items0 = Returned s0.
Proof.
  intros Hok Hdec. unfold createSyncState. rewrite Hok.
  unfold getInitialValue.
  destruct (storage_and_key o) as [[s k]|] eqn:Hsk; simpl; [|by eexists].
  destruct (Hdec s k eq_refl) as [v ->].
  destruct (is_null v); by eexists.
Qed.

End ConstructionFacts.

(** Construction when it is not rejected and the decoder returns [v0] for
    the store's entry under the key ([null] handed in when there is none):
    with a store and key configured and [v0] non-null, the initial value is
    [v0] and the store is not written; otherwise the initial value is the
    default and, with a store and key configured, the encoded default is
    written under the key, once. *)
Lemma createSyncState_initial_value {V : Type} (is_null : V → bool)
    (o : SyncStateOptions V) (items0 : storage_items) (v0 : V) :
  (is_Some (storage o) → key_falsy (key o) = false) →
  (∀ s k, storage_and_key o = Some (s, k) →
          deserialize o (items0 !! (s, k)) = Some v0) →
  ∃ i w,
    createSyncState is_null o items0 = Returned (i, w) ∧
    if has_storage_and_key o && negb (is_null v0)
    then value i = v0 ∧ items w = items0 ∧ store_writes (log w) = []
    else value i = defaultValue o ∧
         match storage_and_key o with
         | Some (s, k) =>
             items w = <[(s, k) := serialize o (defaultValue o)]> items0 ∧
             store_writes (log w) = [(s, k, serialize o (defaultValue o))]
         | None => items w = items0 ∧ store_writes (log w) = []
         end.
Proof.
  intros Hkey Hdec. unfold createSyncState.
  assert (match storage o with Some _ => key_falsy (key o) | None => false end
          = false) as ->.
  { destruct (storage o); [apply Hkey; by eexists|done]. }
  unfold getInitialValue, has_storage_and_key.
  destruct (storage_and_key o) as [[s k]|] eqn:Hsk; simpl.
  - rewrite (Hdec s k eq_refl).
    destruct (is_null v0); simpl.
    + eexists _, _. split; [reflexivity|].
      rewrite callOnInit_items, callOnInit_writes, persistToStorage_writes.
      unfold persistToStorage. rewrite Hsk. by simpl.
    + eexists _, _. split; [reflexivity|].
      by rewrite callOnInit_items, callOnInit_writes.
  - eexists _, _. split; [reflexivity|].
    rewrite callOnInit_items, callOnInit_writes, persistToStorage_writes.
    unfold persistToStorage. rewrite Hsk. by simpl.
Qed.

(** The README's storage example with key ['k'] on an empty store: exactly
    the string ["0"] is left under ['k'], by one write. *)
Lemma createSyncState_persists_default_on_empty_store :
  ∃ i w,
    createSyncState js_is_null
      (default_options (JNum 0) (Some "k") (Some localStorage)) ∅
      = Returned (i, w) ∧
    value i = JNum 0 ∧
    items w = <[(localStorage, "k") := "0"]> ∅ ∧
    store_writes (log w) = [(localStorage, "k", "0")].
Proof.
  apply (createSyncState_initial_value js_is_null
           (default_options (JNum 0) (Some "k") (Some localStorage)) ∅ JNull).
  - intros _. reflexivity.
  - intros s k _. rewrite lookup_empty. reflexivity.
Defined.

(** C2.  At construction a stored entry that decodes to a non-null value
    becomes the initial value and the store is not written; otherwise the
    initial value is the default and the encoded default is written.  The
    code does so whenever the decoder returns, with [null] for a missing
    entry (third part).  It does not when the decoder raises, and the default
    decoder raises on every entry that is no JSON text: over
    [localStorage] holding ["bar"] under ['k'], construction with default 0
    raises instead of starting from 0 and writing ["0"] (first part; second
    part: the same for any entry the host's [JSON.parse] rejects). *)
Theorem createSyncState_raises_on_malformed_entry :
  (let o := default_options (JNum 0) (Some "k") (Some localStorage) in
   let items0 : storage_items := <[(localStorage, "k") := "bar"]> ∅ in
   items0 !! (localStorage, "k") = Some "bar" ∧
   deserialize o (Some "bar") = None ∧
   createSyncState js_is_null o items0 = Thrown CodecError) ∧
  (∀ (V : Type) (is_null : V → bool) (stringify : V → option string)
     (parse : string → option V) (d : V) (k : string) (st : storage_id)
     (items0 : storage_items) (text : string),
     k ≠ "" → text ≠ "" →
     items0 !! (st, k) = Some text →
     parse text = None →
     createSyncState is_null
       (default_options_with stringify parse d (Some k) (Some st)) items0
     = Thrown CodecError) ∧
  (∀ (V : Type) (is_null : V → bool) (o : SyncStateOptions V)
     (items0 : storage_items) (v0 : V),
     (is_Some (storage o) → key_falsy (key o) = false) →
     (∀ v, deserialize o None = Some v → is_null v = true) →
     (∀ s k, storage_and_key o = Some (s, k) →
             deserialize o (items0 !! (s, k)) = Some v0) →
     let holds_decodable_entry :=
       ∃ s k raw, storage_and_key o = Some (s, k) ∧
                  items0 !! (s, k) = Some raw ∧ is_null v0 = false in
     ∃ i w,
       createSyncState is_null o items0 = Returned (i, w) ∧
       (holds_decodable_entry →
        value i = v0 ∧ items w = items0 ∧ store_writes (log w) = []) ∧
       (¬ holds_decodable_entry →
        value i = defaultValue o ∧
        match storage_and_key o with
        | Some (s, k) =>
            items w = <[(s, k) := serialize o (defaultValue o)]> items0 ∧
            store_writes (log w) = [(s, k, serialize o (defaultValue o))]
        | None => items w = items0 ∧ store_writes (log w) = []
        end)).
Proof.
  split_and!.
  - by split_and!.
  - intros V is_null stringify parse d k st items0 text Hk Ht Hit Hp.
    unfold createSyncState, getInitialValue, storage_and_key. cbn.
    apply String.eqb_neq in Hk, Ht. rewrite Hk, Hit. cbn.
    unfold default_deserialize_with. by rewrite Ht, Hp.
  - intros V is_null o items0 v0 Hkey Hnull Hdec holds.
    destruct (createSyncState_initial_value is_null o items0 v0 Hkey Hdec)
      as (i & w & Hc & Hres).
    exists i, w. split; [done|].
    unfold has_storage_and_key in Hres.
    destruct (storage_and_key o) as [[s k]|] eqn:Hsk; cbn in Hres.
    + destruct (is_null v0) eqn:Hv; cbn in Hres.
      * split; [|done]. by intros (? & ? & ? & _ & _ & ?).
      * split; [done|]. intros Hno. exfalso. apply Hno.
        destruct (items0 !! (s, k)) as [raw|] eqn:Hit; [by exists s, k, raw|].
        specialize (Hdec s k eq_refl). rewrite Hit in Hdec.
        apply Hnull in Hdec. congruence.
    + split; [|done]. by intros (? & ? & ? & ? & _).
Qed.

(** With the default codec: over an empty store construction starts from
    the default 0 and leaves ["0"] under ['k'] by one write; over a store
    that holds ["5"] under ['k'] it starts from 5 and writes nothing. *)
Lemma createSyncState_raises_on_malformed_entry_witness :
  let o := default_options (JNum 0) (Some "k") (Some localStorage) in
  (∃ i w,
     createSyncState js_is_null o ∅ = Returned (i, w) ∧
     value i = JNum 0 ∧
     items w = <[(localStorage, "k") := "0"]> ∅ ∧
     store_writes (log w) = [(localStorage, "k", "0")]) ∧
  (∃ i w,
     createSyncState js_is_null o (<[(localStorage, "k") := "5"]> ∅)
       = Returned (i, w) ∧
     value i = JNum 5 ∧
     items w = <[(localStorage, "k") := "5"]> ∅ ∧
     store_writes (log w) = []).
Proof.
  assert (∀ v, default_deserialize None = Some v → js_is_null v = true) as Hnull.
  { intros v [= <-]. reflexivity. }
  split.
  - destruct (proj2 (proj2 createSyncState_raises_on_malformed_entry)
                jsval js_is_null
                (default_options (JNum 0) (Some "k") (Some localStorage))
                ∅ JNull)
      as (i & w & Hc & _ & Hno).
    + intros _. reflexivity.
    + exact Hnull.
    + intros s k _. rewrite lookup_empty. reflexivity.
    + exists i, w. split; [exact Hc|]. apply Hno.
      intros (s & k & raw & _ & _ & Hv). discriminate Hv.
  - destruct (proj2 (proj2 createSyncState_raises_on_malformed_entry)
                jsval js_is_null
                (default_options (JNum 0) (Some "k") (Some localStorage))
                (<[(localStorage, "k") := "5"]> ∅) (JNum 5))
      as (i & w & Hc & Hyes & _).
    + intros _. reflexivity.
    + exact Hnull.
    + intros s k [= <- <-]. reflexivity.
    + exists i, w. split; [exact Hc|]. apply Hyes.
      exists localStorage, "k", "5". split_and!; reflexivity.
Defined.

(** The default decoder raises on an entry that is not JSON text, and so
    does construction over such an entry; the handler raises on such a new
    value, and [dispatch] leaves the instance as it was. *)
Lemma default_decoder_raises_on_malformed_text :
  let o := default_options (JNum 0) (Some "k") (Some localStorage) in
  let i := {| value := JNum 0; updaters := [1%nat] |} in
  let w := {| items := <[(localStorage, "k") := "bar"]> ∅; listening := true;
              log := [] |} in
  let ev := {| storageArea := Some localStorage; event_key := Some "k";
               event_newValue := Some "bar" |} in
  createSyncState js_is_null o (<[(localStorage, "k") := "bar"]> ∅)
    = Thrown CodecError ∧
  storageEventListener js_is_null o ev i w = Thrown CodecError ∧
  dispatch js_is_null o ev i w = (i, w).
Proof. by split_and!. Qed.

(** C6, as stated, fails: a store and a key are both supplied, the key
    being the empty string, and construction is rejected. *)
Lemma createSyncState_rejects_empty_key :
  let o := default_options (JNum 0) (Some "") (Some localStorage) in
  storage o = Some localStorage ∧ key o = Some "" ∧
  createSyncState js_is_null o ∅ = Thrown InvalidConfiguration.
Proof. by split_and!. Qed.

(** C6, amended.  Construction fails with InvalidConfiguration if and only
    if a store is supplied and the key is absent or the empty string; with a
    store and a non-empty key, with neither, or with a key alone,
    construction succeeds whenever the decoder returns a result for the
    stored entry. *)
Theorem createSyncState_rejects_iff {V : Type} (is_null : V → bool)
    (o : SyncStateOptions V) (items0 : storage_items) :
  (createSyncState is_null o items0 = Thrown InvalidConfiguration ↔
   is_Some (storage o) ∧ (key o = None ∨ key o = Some "")) ∧
  (¬ (is_Some (storage o) ∧ (key o = None ∨ key o = Some "")) →
   (∀ s k, storage_and_key o = Some (s, k) →
           is_Some (deserialize o (items0 !! (s, k)))) →
   ∃ s0, createSyncState is_null o items0 = Returned s0).
Proof.
  split.
  - rewrite createSyncState_rejects, key_falsy_spec. done.
  - intros Hok Hdec. apply createSyncState_returns; [|done].
    destruct (storage o) as [s|] eqn:Hs; [|done].
    destruct (key_falsy (key o)) eqn:Hk; [|done].
    exfalso. apply Hok. split; [by eexists|]. by apply key_falsy_spec.
Qed.

(** A store with a non-empty key, and a key alone, are both accepted. *)
Lemma createSyncState_rejects_iff_witness :
  (∃ s0, createSyncState js_is_null
           (default_options (JNum 0) (Some "k") (Some localStorage)) ∅
         = Returned s0) ∧
  (∃ s0, createSyncState js_is_null (default_options (JNum 0) (Some "k") None) ∅
         = Returned s0).
Proof.
  split.
  - apply (proj2 (createSyncState_rejects_iff js_is_null
                    (default_options (JNum 0) (Some "k") (Some localStorage)) ∅)).
    + intros [_ [H|H]]; discriminate H.
    + intros s k _. rewrite lookup_empty. by eexists.
  - apply (proj2 (createSyncState_rejects_iff js_is_null
                    (default_options (JNum 0) (Some "k") None) ∅)).
    + intros [[s H] _]; discriminate H.
    + intros s k H. discriminate H.
Defined.

(** ** External notifications *)

Section EventFacts.

Context {V : Type} (is_null : V → bool).

Lemma same_storage_true (a s : option storage_id) :
  same_storage a s = true ↔ ∃ x, a = Some x ∧ s = Some x.
Proof.
  destruct a as [x|], s as [y|]; simpl;
    try (split; [done|intros (? & ? & ?); done]).
  rewrite Nat.eqb_eq. split.
  - intros ->. by exists y.
  - by intros (z & [= ->] & [= ->]).
Qed.

Lemma same_key_true (a k : option string) :
  same_key a k = true ↔ ∃ x, a = Some x ∧ k = Some x.
Proof.
  destruct a as [x|], k as [y|]; simpl;
    try (split; [done|intros (? & ? & ?); done]).
  rewrite String.eqb_eq. split.
  - intros ->. by exists y.
  - by intros (z & [= ->] & [= ->]).
Qed.

Lemma callUpdaters_writes (i : instance V) (v : V) (w : world V) :
  store_writes (log (callUpdaters i v w)) = store_writes (log w).
Proof.
  unfold callUpdaters, emit, store_writes. simpl. rewrite omap_app.
  induction (updaters i) as [|u l IH]; simpl; [apply app_nil_r|done].
Qed.

Lemma callUpdaters_notifications (i : instance V) (v : V) (w : world V) :
  notifications (log (callUpdaters i v w)) =
    notifications (log w) ++ map (λ u, (u, v)) (updaters i).
Proof.
  unfold callUpdaters, emit, notifications. simpl. rewrite omap_app. f_equal.
  induction (updaters i) as [|u l IH]; simpl; [done|by f_equal].
Qed.

(** The handler on an event it accepts. *)
Lemma storageEventListener_accepts (o : SyncStateOptions V) (ev : StorageEvent)
    (i : instance V) (w : world V) (s : storage_id) (k : string) (v : V) :
  storage o = Some s → storageArea ev = Some s →
  key o = Some k → event_key ev = Some k →
  deserialize o (event_newValue ev) = Some v → is_null v = false →
  storageEventListener is_null o ev i w =
    Returned ({| value := v; updaters := updaters i |},
              callUpdaters {| value := v; updaters := updaters i |} v w).
Proof.
  intros Hs Ha Hk He Hd Hn. unfold storageEventListener.
  rewrite Hs, Ha, Hk, He, Hd, Hn. simpl.
  by rewrite Nat.eqb_refl, String.eqb_refl.
Qed.

End EventFacts.

(** C3.  An external notification whose store and key are those of the
    instance and whose raw value decodes to a non-null value overwrites the
    value cell with the decoded value and calls every registered updater
    with it, in registry order; nothing is written to the store. *)
Theorem storageEventListener_applies_without_writing {V : Type}
    (is_null : V → bool) (o : SyncStateOptions V) (ev : StorageEvent)
    (i : instance V) (w : world V) (s : storage_id) (k : string) (v : V) :
  storage o = Some s → storageArea ev = Some s →
  key o = Some k → event_key ev = Some k →
  deserialize o (event_newValue ev) = Some v → is_null v = false →
  ∃ i' w',
    storageEventListener is_null o ev i w = Returned (i', w') ∧
    value i' = v ∧
    updaters i' = updaters i ∧
    log w' = log w ++ map (λ u, CallUpdater u v) (updaters i) ∧
    items w' = items w ∧
    store_writes (log w') = store_writes (log w).
Proof.
  intros Hs Ha Hk He Hd Hn. eexists _, _. split.
  - by eapply storageEventListener_accepts.
  - split_and!; try done. apply callUpdaters_writes.
Qed.

(** A sibling tab wrote ["5"] under ['k']: both hooks are called with 5. *)
Lemma storageEventListener_applies_without_writing_witness :
  ∃ i' w',
    storageEventListener js_is_null
      (default_options (JNum 0) (Some "k") (Some localStorage))
      {| storageArea := Some localStorage; event_key := Some "k";
         event_newValue := Some "5" |}
      {| value := JNum 0; updaters := [1%nat; 2%nat] |}
      {| items := <[(localStorage, "k") := "0"]> ∅; listening := true; log := [] |}
      = Returned (i', w') ∧
    value i' = JNum 5 ∧
    updaters i' = [1%nat; 2%nat] ∧
    log w' = [CallUpdater 1%nat (JNum 5); CallUpdater 2%nat (JNum 5)] ∧
    items w' = <[(localStorage, "k") := "0"]> ∅ ∧
    store_writes (log w') = [].
Proof.
  exact (storageEventListener_applies_without_writing js_is_null
           (default_options (JNum 0) (Some "k") (Some localStorage))
           {| storageArea := Some localStorage; event_key := Some "k";
              event_newValue := Some "5" |}
           {| value := JNum 0; updaters := [1%nat; 2%nat] |}
           {| items := <[(localStorage, "k") := "0"]> ∅; listening := true;
              log := [] |}
           localStorage "k" (JNum 5)
           eq_refl eq_refl eq_refl eq_refl eq_refl eq_refl).
Defined.

(** C4.  For a decoder that answers [null] with [null], a notification
    whose store differs from the instance's, or whose key differs, or whose
    new raw value is absent, or whose raw value decodes to [null], leaves
    the value cell, the registry and the page as they were, calls no updater
    and raises nothing. *)
Theorem storageEventListener_ignores {V : Type} (is_null : V → bool)
    (o : SyncStateOptions V) (ev : StorageEvent) (i : instance V) (w : world V) :
  (∃ v, deserialize o None = Some v ∧ is_null v = true) →
  storageArea ev ≠ storage o ∨
  event_key ev ≠ key o ∨
  event_newValue ev = None ∨
  (∃ v, deserialize o (event_newValue ev) = Some v ∧ is_null v = true) →
  storageEventListener is_null o ev i w = Returned (i, w).
Proof.
  intros Hnull H. unfold storageEventListener.
  destruct (same_storage _ _) eqn:Hs; [|done].
  destruct (same_key _ _) eqn:Hk; [|done]. simpl.
  apply same_storage_true in Hs as (x & Hx1 & Hx2).
  apply same_key_true in Hk as (y & Hy1 & Hy2).
  assert (∃ v, deserialize o (event_newValue ev) = Some v ∧ is_null v = true)
    as (v & Hv & Hn).
  { destruct H as [H|[H|[H|H]]]; [congruence|congruence| |done].
    by rewrite H. }
  by rewrite Hv, Hn.
Qed.

(** With the default decoder an absent new value is [null] and is ignored;
    so are an event of another store and an event for another key. *)
Lemma storageEventListener_ignores_witness :
  let o := default_options (JNum 0) (Some "k") (Some localStorage) in
  let i := {| value := JNum 0; updaters := [1%nat] |} in
  let w := {| items := ∅; listening := true; log := [] |} in
  storageEventListener js_is_null o
    {| storageArea := Some localStorage; event_key := Some "k";
       event_newValue := None |} i w = Returned (i, w) ∧
  storageEventListener js_is_null o
    {| storageArea := Some sessionStorage; event_key := Some "k";
       event_newValue := Some "5" |} i w = Returned (i, w) ∧
  storageEventListener js_is_null o
    {| storageArea := Some localStorage; event_key := Some "other";
       event_newValue := Some "5" |} i w = Returned (i, w).
Proof.
  assert (∃ v, default_deserialize None = Some v ∧ js_is_null v = true) as Hnull.
  { exists JNull. split; reflexivity. }
  split_and!.
  - apply storageEventListener_ignores; [exact Hnull|]. right; right; left.
    reflexivity.
  - apply storageEventListener_ignores; [exact Hnull|]. left. discriminate.
  - apply storageEventListener_ignores; [exact Hnull|]. right; left. discriminate.
Defined.

(** ** The update callback and function-valued arguments *)

(** C5.  With an [onUpdate] callback, every update invokes it exactly once,
    with the new value, after the updaters have been called and after the
    store write. *)
Theorem setSyncValue_onUpdate_called_last {V : Type}
    (typeof_function : V → option (V → V)) (o : SyncStateOptions V)
    (cb : callback) (newValue : V) (i : instance V) (w : world V) :
  onUpdate o = Some cb →
  let s' := setSyncValue_onUpdate typeof_function o newValue i w in
  let v := value (fst s') in
  v = value (fst (setSyncValue typeof_function o newValue i w)) ∧
  log (snd s') =
    log w ++ map (λ u, CallUpdater u v) (updaters i)
          ++ match storage_and_key o with
             | Some (s, k) => [SetItem s k (serialize o v)]
             | None => []
             end
          ++ [CallOnUpdate cb v] ∧
  onUpdate_calls (log (snd s')) = onUpdate_calls (log w) ++ [(cb, v)].
Proof.
  intros Hcb. unfold setSyncValue_onUpdate.
  pose proof (setSyncValue_log typeof_function o newValue i w) as Hlog.
  destruct (setSyncValue typeof_function o newValue i w) as [i' w'] eqn:Hs.
  simpl in *. unfold callOnUpdate. rewrite Hcb. simpl.
  split; [done|]. rewrite Hlog. split.
  - by rewrite <- !app_assoc.
  - unfold onUpdate_calls. rewrite !omap_app. simpl.
    rewrite omap_map_None by done.
    destruct (storage_and_key o) as [[s k]|]; simpl; by rewrite app_nil_r.
Qed.

(** The test of the update callback: [onUpdate] sees 1 after [update(1)]. *)
Lemma setSyncValue_onUpdate_called_last_witness :
  let o := {| defaultValue := JNum 0; key := Some "k"; storage := Some localStorage;
              serialize := default_serialize; deserialize := default_deserialize;
              onInit := None; onUpdate := Some 9%nat |} in
  let s' := setSyncValue_onUpdate js_typeof_function o (JNum 1)
              {| value := JNum 0; updaters := [1%nat] |}
              {| items := ∅; listening := true; log := [] |} in
  log (snd s') =
    [CallUpdater 1%nat (JNum 1); SetItem localStorage "k" "1";
     CallOnUpdate 9%nat (JNum 1)] ∧
  onUpdate_calls (log (snd s')) = [(9%nat, JNum 1)].
Proof.
  exact (proj2 (setSyncValue_onUpdate_called_last js_typeof_function
           {| defaultValue := JNum 0; key := Some "k"; storage := Some localStorage;
              serialize := default_serialize; deserialize := default_deserialize;
              onInit := None; onUpdate := Some 9%nat |}
           9%nat (JNum 1)
           {| value := JNum 0; updaters := [1%nat] |}
           {| items := ∅; listening := true; log := [] |} eq_refl)).
Defined.

(** C10.  An argument whose [typeof] is ['function'] is always called as an
    updater: the value cell afterwards holds its result on the old value,
    whatever the value type is; the argument itself is stored only when
    [typeof] does not say ['function']. *)
Theorem setSyncValue_calls_every_function {V : Type}
    (typeof_function : V → option (V → V)) (o : SyncStateOptions V)
    (newValue : V) (f : V → V) (i : instance V) (w : world V) :
  typeof_function newValue = Some f →
  value (fst (setSyncValue typeof_function o newValue i w)) = f (value i) ∧
  (∀ x, typeof_function x = None →
        value (fst (setSyncValue typeof_function o x i w)) = x).
Proof.
  intros Hf. split.
  - by rewrite setSyncValue_value, Hf.
  - intros x Hx. by rewrite setSyncValue_value, Hx.
Qed.

(** A state holding a function, [createSyncState({defaultValue: v => v + 1})],
    updated with the function [v => v * 2]: the cell holds [NaN], the result
    of calling the argument on the old function, not the argument. *)
Lemma setSyncValue_calls_every_function_witness :
  let double := JFun (λ v, v * 2) in
  let i := {| value := JFun (λ v, v + 1); updaters := [] |} in
  let w := {| items := ∅; listening := false; log := [] |} in
  value (fst (setSyncValue js_typeof_function counter double i w)) = JNaN ∧
  value (fst (setSyncValue js_typeof_function counter (JNum 3) i w)) = JNum 3.
Proof.
  split.
  - exact (proj1 (setSyncValue_calls_every_function js_typeof_function counter
                    (JFun (λ v, v * 2)) _
                    {| value := JFun (λ v, v + 1); updaters := [] |}
                    {| items := ∅; listening := false; log := [] |} eq_refl)).
  - exact (proj2 (setSyncValue_calls_every_function js_typeof_function counter
                    (JFun (λ v, v * 2)) _
                    {| value := JFun (λ v, v + 1); updaters := [] |}
                    {| items := ∅; listening := false; log := [] |} eq_refl)
             (JNum 3) eq_refl).
Defined.

(** ** The registry and the storage listener *)

Section RegistryFacts.

Context {V : Type} (is_null : V → bool) (typeof_function : V → option (V → V)).
Context (o : SyncStateOptions V).

Lemma useSyncValue_effect_instance (u : updater_id) (i : instance V) (w : world V) :
  fst (useSyncValue_effect o u i w) =
    {| value := value i; updaters := updaters i ++ [u] |}.
Proof. unfold useSyncValue_effect, push. by destruct (_ && _). Qed.

Lemma useSyncValue_cleanup_instance (u : updater_id) (i : instance V) (w : world V) :
  fst (useSyncValue_cleanup o u i w) =
    {| value := value i;
       updaters := splice1 (indexOf u (updaters i)) (updaters i) |}.
Proof. unfold useSyncValue_cleanup. by destruct (_ && _). Qed.

Lemma storageEventListener_frame (ev : StorageEvent) (i : instance V) (w : world V)
    (s' : instance V * world V) :
  storageEventListener is_null o ev i w = Returned s' →
  updaters (fst s') = updaters i ∧ listening (snd s') = listening w ∧
  items (snd s') = items w.
Proof.
  unfold storageEventListener. destruct (_ && _); [|by intros [= <-]].
  destruct (deserialize o _) as [v|]; [|done].
  destruct (is_null v); by intros [= <-].
Qed.

Lemma dispatch_frame (ev : StorageEvent) (i : instance V) (w : world V) :
  updaters (fst (dispatch is_null o ev i w)) = updaters i ∧
  listening (snd (dispatch is_null o ev i w)) = listening w ∧
  items (snd (dispatch is_null o ev i w)) = items w.
Proof.
  unfold dispatch. destruct (listening w) eqn:Hl; [|done].
  destruct (storageEventListener is_null o ev i w) as [s'|e] eqn:Hs; [|done].
  apply storageEventListener_frame in Hs. by rewrite <- Hl.
Qed.

(** A teardown for a registered updater removes its first occurrence. *)
Lemma splice1_indexOf_present (u : updater_id) (l : list updater_id) :
  NoDup l → u ∈ l → splice1 (indexOf u l) l = filter (λ x, x ≠ u) l.
Proof.
  intros Hnd Hin.
  destruct (indexOf_present u l Hin) as (n & -> & Hl & _).
  rewrite splice1_at by (by eapply lookup_lt_Some).
  by apply delete_first_occurrence.
Qed.

(** A teardown for an updater that is not registered finds index [-1] and
    removes the last registered updater. *)
Lemma useSyncValue_cleanup_unregistered (u : updater_id) (i : instance V) (w : world V) :
  u ∉ updaters i →
  updaters (fst (useSyncValue_cleanup o u i w)) =
    take (length (updaters i) - 1) (updaters i).
Proof.
  intros Hu. rewrite useSyncValue_cleanup_instance. cbn [updaters].
  rewrite indexOf_absent by done. apply splice1_absent.
Qed.

Lemma NoDup_filter_ne (u : updater_id) (l : list updater_id) :
  NoDup l → NoDup (filter (λ x, x ≠ u) l).
Proof. apply NoDup_filter. Qed.

Lemma NoDup_snoc (u : updater_id) (l : list updater_id) :
  NoDup l → u ∉ l → NoDup (l ++ [u]).
Proof.
  intros Hnd Hu. apply NoDup_app. split_and!; [done| |apply NoDup_singleton].
  intros x Hx Hx'. apply list_elem_of_singleton in Hx' as ->. done.
Qed.

(** The registry after one step of a history that respects the lifecycle. *)
Lemma step_attached (s : instance V * world V) (a : op V) :
  NoDup (updaters (fst s)) →
  lifecycle [a] (updaters (fst s)) = true →
  updaters (fst (step is_null typeof_function o s a)) = attached [a] (updaters (fst s)) ∧
  NoDup (updaters (fst (step is_null typeof_function o s a))).
Proof.
  intros Hnd Hok. destruct a as [nv|ev|u|u]; simpl in *.
  - done.
  - by rewrite (proj1 (dispatch_frame ev (fst s) (snd s))).
  - rewrite useSyncValue_effect_instance. simpl.
    apply andb_true_iff in Hok as [Hu _]. apply bool_decide_eq_true in Hu.
    split; [done|]. by apply NoDup_snoc.
  - rewrite useSyncValue_cleanup_instance. simpl.
    apply andb_true_iff in Hok as [Hu _]. apply bool_decide_eq_true in Hu.
    rewrite splice1_indexOf_present by done.
    split; [done|]. by apply NoDup_filter_ne.
Qed.

Lemma lifecycle_cons (a : op V) (ops : list (op V)) (reg : list updater_id) :
  lifecycle (a :: ops) reg = lifecycle [a] reg && lifecycle ops (attached [a] reg).
Proof.
  destruct a; simpl; rewrite ?andb_true_r; done.
Qed.

Lemma attached_cons (a : op V) (ops : list (op V)) (reg : list updater_id) :
  attached (a :: ops) reg = attached ops (attached [a] reg).
Proof. by destruct a. Qed.

Lemma run_attached (ops : list (op V)) (s : instance V * world V) :
  NoDup (updaters (fst s)) →
  lifecycle ops (updaters (fst s)) = true →
  updaters (fst (run is_null typeof_function o ops s)) = attached ops (updaters (fst s)) ∧
  NoDup (updaters (fst (run is_null typeof_function o ops s))).
Proof.
  revert s. induction ops as [|a ops IH]; intros s Hnd Hok; [done|].
  rewrite lifecycle_cons in Hok. apply andb_true_iff in Hok as [Ha Hops].
  destruct (step_attached s a Hnd Ha) as [Hreg Hnd'].
  rewrite attached_cons, <- Hreg. simpl.
  apply IH; [done|]. by rewrite Hreg.
Qed.

Lemma splice1_nil (start : Z) : splice1 start ([] : list updater_id) = [].
Proof. unfold splice1. by destruct (_ <? _). Qed.

Lemma step_listener_invariant (s : instance V * world V) (a : op V) :
  listener_invariant o s →
  listener_invariant o (step is_null typeof_function o s a).
Proof.
  unfold listener_invariant. destruct s as [i w]. cbn [fst snd]. intros Hinv.
  destruct a as [nv|ev|u|u]; cbn [step fst snd].
  - by rewrite setSyncValue_listening, setSyncValue_updaters.
  - destruct (dispatch_frame ev i w) as (-> & -> & _). done.
  - unfold useSyncValue_effect, push. cbn [updaters]. rewrite length_app.
    destruct (updaters i) as [|x l] eqn:Hl; cbn [length Nat.add Nat.eqb].
    + destruct (has_storage_and_key o); cbn [andb fst snd listening updaters].
      * by rewrite bool_decide_eq_true_2.
      * by rewrite Hinv.
    + replace (length l + 1)%nat with (S (length l)) by lia.
      cbn [Nat.eqb andb fst snd updaters]. rewrite Hinv.
      by rewrite !bool_decide_eq_true_2.
  - unfold useSyncValue_cleanup. cbn [updaters].
    destruct (splice1 _ _) as [|y l'] eqn:Hsp; cbn [length Nat.eqb andb].
    + destruct (has_storage_and_key o); cbn [andb fst snd listening updaters].
      * by rewrite bool_decide_eq_false_2 by (intros H; by apply H).
      * by rewrite Hinv.
    + cbn [fst snd updaters]. rewrite Hinv.
      destruct (updaters i) as [|x l]; [by rewrite splice1_nil in Hsp|].
      by rewrite !bool_decide_eq_true_2.
Qed.

Lemma run_listener_invariant (ops : list (op V)) (s : instance V * world V) :
  listener_invariant o s →
  listener_invariant o (run is_null typeof_function o ops s).
Proof.
  revert s. induction ops as [|a ops IH]; intros s Hinv; [done|].
  simpl. apply IH. by apply step_listener_invariant.
Qed.

End RegistryFacts.

(** C7, as stated, fails: two hooks are mounted; the teardown of the first
    removes it, and the same teardown run again removes the second hook's
    updater, which never detached. *)
Lemma useSyncValue_cleanup_twice_removes_another :
  ∃ s0,
    createSyncState js_is_null counter ∅ = Returned s0 ∧
    updaters (fst (run js_is_null js_typeof_function counter
                     [Mount 1%nat; Mount 2%nat; Unmount 1%nat] s0)) = [2%nat] ∧
    updaters (fst (run js_is_null js_typeof_function counter
                     [Mount 1%nat; Mount 2%nat; Unmount 1%nat; Unmount 1%nat] s0)) = [].
Proof. eexists. split; [reflexivity|]. by vm_compute. Qed.

(** C7, amended.  Detachment balances a prior attachment: over every
    sequence of operations in which each teardown runs for a hook that is
    mounted, the registry holds exactly the hooks mounted and not yet
    unmounted, in mounting order and without repetition; the teardown of a
    registered hook removes exactly that hook, leaves the others in order,
    and the hook is no longer registered afterwards.  No operation raises. *)
Theorem useSyncValue_cleanup_balances_effect {V : Type} (is_null : V → bool)
    (typeof_function : V → option (V → V)) (o : SyncStateOptions V)
    (ops : list (op V)) (s : instance V * world V) :
  NoDup (updaters (fst s)) →
  lifecycle ops (updaters (fst s)) = true →
  let s' := run is_null typeof_function o ops s in
  updaters (fst s') = attached ops (updaters (fst s)) ∧
  NoDup (updaters (fst s')) ∧
  (∀ u, u ∈ updaters (fst s') →
        let s'' := step is_null typeof_function o s' (Unmount u) in
        updaters (fst s'') = filter (λ x, x ≠ u) (updaters (fst s')) ∧
        u ∉ updaters (fst s'')).
Proof.
  intros Hnd Hok s'.
  destruct (run_attached is_null typeof_function o ops s Hnd Hok) as [Hreg Hnd'].
  split_and!; [done|done|].
  intros u Hu s''. subst s''. cbn [step].
  rewrite useSyncValue_cleanup_instance. cbn [updaters].
  rewrite splice1_indexOf_present by done.
  split; [done|]. intros Hin. apply list_elem_of_filter in Hin as [Hne _]. done.
Qed.

(** Three hooks come and go around an update; hooks 2 and 3 remain. *)
Lemma useSyncValue_cleanup_balances_effect_witness :
  let s := ({| value := JNum 0; updaters := [] |},
            {| items := (∅ : storage_items); listening := false; log := [] |}) in
  let ops := [Mount 1%nat; Mount 2%nat; Update (JNum 5); Unmount 1%nat; Mount 3%nat] in
  let s' := run js_is_null js_typeof_function counter ops s in
  updaters (fst s') = attached ops [] ∧
  NoDup (updaters (fst s')) ∧
  (∀ u, u ∈ updaters (fst s') →
        let s'' := step js_is_null js_typeof_function counter s' (Unmount u) in
        updaters (fst s'') = filter (λ x, x ≠ u) (updaters (fst s')) ∧
        u ∉ updaters (fst s'')).
Proof.
  exact (useSyncValue_cleanup_balances_effect js_is_null js_typeof_function counter
           [Mount 1%nat; Mount 2%nat; Update (JNum 5); Unmount 1%nat; Mount 3%nat]
           ({| value := JNum 0; updaters := [] |},
            {| items := (∅ : storage_items); listening := false; log := [] |})
           (NoDup_nil_2 (A:=updater_id)) eq_refl).
Defined.

(** C8.  On a constructed instance, after any history of updates, storage
    events, effects and teardowns, the storage listener is registered
    exactly when a store and key are configured and the registry is not
    empty.  An effect registers it when, and only when, a store and key are
    configured and its updater is the only one; a teardown removes it when,
    and only when, a store and key are configured and it leaves the registry
    empty.  Without a store and key it is never registered. *)
Theorem storage_listener_follows_registry {V : Type} (is_null : V → bool)
    (typeof_function : V → option (V → V)) (o : SyncStateOptions V)
    (items0 : storage_items) (s0 : instance V * world V) (ops : list (op V)) :
  createSyncState is_null o items0 = Returned s0 →
  let s := run is_null typeof_function o ops s0 in
  (listening (snd s) = true ↔
   has_storage_and_key o = true ∧ updaters (fst s) ≠ []) ∧
  (∀ u, let s' := step is_null typeof_function o s (Mount u) in
        log (snd s') =
          log (snd s) ++
            if has_storage_and_key o && bool_decide (updaters (fst s) = [])
            then [AddEventListener] else []) ∧
  (∀ u, let s' := step is_null typeof_function o s (Unmount u) in
        log (snd s') =
          log (snd s) ++
            if has_storage_and_key o && bool_decide (updaters (fst s') = [])
            then [RemoveEventListener] else []).
Proof.
  intros Hc s.
  assert (listener_invariant o s) as Hinv.
  { apply run_listener_invariant. unfold listener_invariant.
    destruct (createSyncState_fresh is_null o items0 s0 Hc) as [-> ->].
    by rewrite andb_false_r. }
  split_and!.
  - rewrite Hinv, andb_true_iff, bool_decide_eq_true. done.
  - intros u. cbn [step]. unfold useSyncValue_effect, push. cbn [updaters].
    rewrite length_app. rewrite (andb_comm (has_storage_and_key o)).
    destruct (updaters (fst s)) as [|x l]; cbn [length Nat.add Nat.eqb].
    + destruct (has_storage_and_key o); cbn; [done|by rewrite app_nil_r].
    + replace (length l + 1)%nat with (S (length l)) by lia.
      cbn. by rewrite app_nil_r.
  - intros u. cbn [step]. unfold useSyncValue_cleanup. cbn [updaters].
    rewrite (andb_comm (has_storage_and_key o)).
    destruct (splice1 _ _) as [|y l'] eqn:Hsp; cbn [length Nat.eqb andb].
    + destruct (has_storage_and_key o); cbn; [done|by rewrite app_nil_r].
    + cbn. by rewrite app_nil_r.
Qed.

(** With [localStorage] and key ['k']: listening after the first mount,
    still after the second, not after both teardowns, again after a
    remount. *)
Lemma storage_listener_follows_registry_witness :
  let o := default_options (JNum 0) (Some "k") (Some localStorage) in
  ∃ s0,
    createSyncState js_is_null o ∅ = Returned s0 ∧
    let go := λ ops, listening (snd (run js_is_null js_typeof_function o ops s0)) in
    go [] = false ∧
    go [Mount 1%nat] = true ∧
    go [Mount 1%nat; Mount 2%nat; Unmount 1%nat] = true ∧
    go [Mount 1%nat; Mount 2%nat; Unmount 1%nat; Unmount 2%nat] = false ∧
    go [Mount 1%nat; Mount 2%nat; Unmount 1%nat; Unmount 2%nat; Mount 3%nat] = true ∧
    (listening (snd (run js_is_null js_typeof_function o [Mount 1%nat] s0)) = true ↔
     has_storage_and_key o = true ∧
     updaters (fst (run js_is_null js_typeof_function o [Mount 1%nat] s0)) ≠ []).
Proof.
  eexists. split; [reflexivity|].
  split_and!; try reflexivity.
  exact (proj1 (storage_listener_follows_registry js_is_null js_typeof_function
                  (default_options (JNum 0) (Some "k") (Some localStorage))
                  ∅ _ [Mount 1%nat] eq_refl)).
Defined.

(** ** From one tab to another *)

Section PropagateFacts.

Context {V : Type} (is_null : V → bool) (typeof_function : V → option (V → V)).
Context (o : SyncStateOptions V).

Lemma setSyncValue_writes (newValue : V) (i : instance V) (w : world V) :
  let s' := setSyncValue typeof_function o newValue i w in
  store_writes (log (snd s')) =
    store_writes (log w) ++
      match storage_and_key o with
      | Some (s, k) => [(s, k, serialize o (value (fst s')))]
      | None => []
      end.
Proof.
  unfold setSyncValue. cbn [fst snd value].
  by rewrite persistToStorage_writes, callUpdaters_writes.
Qed.

(** The writes of one update, as the sibling tab gets them. *)
Lemma propagate_unfold (newValue : V) (a b : instance V * world V) :
  let a' := setSyncValue typeof_function o newValue (fst a) (snd a) in
  propagate is_null typeof_function o newValue a b =
    (a', match storage_and_key o with
         | Some (s, k) => receive is_null o b (s, k, serialize o (value (fst a')))
         | None => b
         end).
Proof.
  unfold propagate. cbn zeta. f_equal.
  rewrite setSyncValue_writes, drop_app_length.
  by destruct (storage_and_key o) as [[s k]|].
Qed.

Lemma propagate_accepted (newValue : V) (a b : instance V * world V)
    (s : storage_id) (k : string) :
  storage_and_key o = Some (s, k) →
  listening (snd b) = true →
  let v := value (fst (setSyncValue typeof_function o newValue (fst a) (snd a))) in
  deserialize o (Some (serialize o v)) = Some v →
  is_null v = false →
  items (snd b) !! (s, k) ≠ Some (serialize o v) →
  let b' := snd (propagate is_null typeof_function o newValue a b) in
  value (fst b') = v ∧
  notifications (log (snd b')) =
    notifications (log (snd b)) ++ map (λ u, (u, v)) (updaters (fst b)) ∧
  store_writes (log (snd b')) = store_writes (log (snd b)) ∧
  items (snd b') !! (s, k) = Some (serialize o v).
Proof.
  intros Hsk Hl v Hrt Hn Hch b'. subst b'.
  rewrite propagate_unfold. cbn [snd]. rewrite Hsk. fold v.
  unfold receive. cbn [fst snd].
  rewrite bool_decide_eq_false_2 by done.
  unfold dispatch. cbn [listening]. rewrite Hl.
  apply storage_and_key_Some in Hsk as (Hs & Hk & _).
  erewrite storageEventListener_accepts; [|done..].
  cbn [fst snd value updaters].
  rewrite callUpdaters_notifications, callUpdaters_writes.
  unfold callUpdaters, emit. cbn [items log updaters].
  split_and!; try done. apply lookup_insert_eq.
Qed.

End PropagateFacts.

(** C9, as stated, fails: the default codec gives [null] back from its
    encoding, yet after tab [a] updates to [null] the listening tab [b]
    still holds 0 and none of its updaters was called. *)
Lemma propagate_drops_null :
  let o := default_options (JNum 0) (Some "k") (Some localStorage) in
  deserialize o (Some (serialize o JNull)) = Some JNull ∧
  ∃ a b,
    createSyncState js_is_null o ∅ = Returned a ∧
    createSyncState js_is_null o (items (snd a)) = Returned b ∧
    let b1 := useSyncValue_effect o 1%nat (fst b) (snd b) in
    let r := propagate js_is_null js_typeof_function o JNull a b1 in
    listening (snd b1) = true ∧
    value (fst (fst r)) = JNull ∧
    items (snd (fst r)) !! (localStorage, "k") = Some "null" ∧
    items (snd (snd r)) !! (localStorage, "k") = Some "null" ∧
    value (fst (snd r)) = JNum 0 ∧
    value (fst (snd r)) ≠ value (fst (fst r)) ∧
    notifications (log (snd (snd r))) = [].
Proof.
  split; [reflexivity|].
  eexists _, _. split; [reflexivity|]. split; [reflexivity|].
  by vm_compute.
Qed.

Lemma default_options_with_storage_and_key {V : Type} (stringify : V → option string)
    (parse : string → option V) (d : V) (k : string) (st : storage_id) :
  k ≠ "" →
  storage_and_key (default_options_with stringify parse d (Some k) (Some st))
  = Some (st, k).
Proof.
  intros Hk. unfold storage_and_key. cbn. apply String.eqb_neq in Hk.
  by rewrite Hk.
Qed.

(** The default codec gives back every value whose [JSON.stringify] text
    [JSON.parse] reads as that value ([JSON.parse] raises on the empty
    string). *)
Lemma default_codec_gives_back {V : Type} (stringify : V → option string)
    (parse : string → option V) (v : V) (text : string) :
  parse "" = None →
  stringify v = Some text → parse text = Some v →
  default_deserialize_with parse (Some (default_serialize_with stringify v))
  = Some v.
Proof.
  intros Hempty Hs Hp. unfold default_serialize_with, default_deserialize_with.
  rewrite Hs. destruct (String.eqb_spec text "") as [->|_]; [congruence|done].
Qed.

(** C9, amended.  For every non-null value that the decoder gives back from
    its encoding, an update in one tab reaches a listening sibling tab
    unchanged: the sibling's value cell holds it, each of its updaters is
    called with it, and the sibling writes nothing back.  In particular so
    for the default codec, on every non-null value that [JSON.parse] reads
    back from its [JSON.stringify] text. *)
Theorem propagate_delivers_round_tripping_value :
  (∀ (V : Type) (is_null : V → bool) (typeof_function : V → option (V → V))
     (o : SyncStateOptions V) (newValue : V) (a b : instance V * world V)
     (s : storage_id) (k : string),
     storage_and_key o = Some (s, k) →
     listening (snd b) = true →
     let v := value (fst (setSyncValue typeof_function o newValue (fst a) (snd a))) in
     deserialize o (Some (serialize o v)) = Some v →
     is_null v = false →
     items (snd b) !! (s, k) ≠ Some (serialize o v) →
     let b' := snd (propagate is_null typeof_function o newValue a b) in
     value (fst b') = v ∧
     notifications (log (snd b')) =
       notifications (log (snd b)) ++ map (λ u, (u, v)) (updaters (fst b)) ∧
     store_writes (log (snd b')) = store_writes (log (snd b))) ∧
  (∀ (V : Type) (is_null : V → bool) (typeof_function : V → option (V → V))
     (stringify : V → option string) (parse : string → option V)
     (d : V) (k : string) (st : storage_id) (newValue : V)
     (a b : instance V * world V) (text : string),
     let o := default_options_with stringify parse d (Some k) (Some st) in
     k ≠ "" →
     parse "" = None →
     listening (snd b) = true →
     let v := value (fst (setSyncValue typeof_function o newValue (fst a) (snd a))) in
     stringify v = Some text → parse text = Some v →
     is_null v = false →
     items (snd b) !! (st, k) ≠ Some text →
     let b' := snd (propagate is_null typeof_function o newValue a b) in
     value (fst b') = v ∧
     notifications (log (snd b')) =
       notifications (log (snd b)) ++ map (λ u, (u, v)) (updaters (fst b)) ∧
     store_writes (log (snd b')) = store_writes (log (snd b))).
Proof.
  split.
  - intros V is_null tf o newValue a b s k Hsk Hl v Hrt Hn Hch b'.
    destruct (propagate_accepted is_null tf o newValue a b s k Hsk Hl Hrt Hn Hch)
      as (H1 & H2 & H3 & _).
    done.
  - intros V is_null tf stringify parse d k st newValue a b text o Hk Hempty Hl v
      Hs Hp Hn Hch b'.
    assert (serialize o v = text) as Hser.
    { change (default_serialize_with stringify v = text).
      unfold default_serialize_with. by rewrite Hs. }
    destruct (propagate_accepted is_null tf o newValue a b st k) as (H1 & H2 & H3 & _).
    + by apply default_options_with_storage_and_key.
    + done.
    + by apply (default_codec_gives_back stringify parse _ text).
    + done.
    + fold v. by rewrite Hser.
    + done.
Qed.

(** Tab [a] counts from 0 to 1 with [v => v + 1]; tab [b], with two hooks
    mounted, holds 1 afterwards and both hooks were called with 1.  The same
    for [true] set over 1, with the default codec. *)
Lemma propagate_delivers_round_tripping_value_witness :
  let o := default_options (JNum 0) (Some "k") (Some localStorage) in
  let a := ({| value := JNum 0; updaters := [] |},
            {| items := <[(localStorage, "k") := "0"]> ∅; listening := false;
               log := [] |}) in
  let b := ({| value := JNum 0; updaters := [1%nat; 2%nat] |},
            {| items := <[(localStorage, "k") := "0"]> ∅; listening := true;
               log := [] |}) in
  let b' := snd (propagate js_is_null js_typeof_function o
                   (JFun (λ v, v + 1)) a b) in
  let b'' := snd (propagate js_is_null js_typeof_function o (JBool true) a b) in
  (value (fst b') = JNum 1 ∧
   notifications (log (snd b')) = [(1%nat, JNum 1); (2%nat, JNum 1)] ∧
   store_writes (log (snd b')) = []) ∧
  (value (fst b'') = JBool true ∧
   notifications (log (snd b'')) = [(1%nat, JBool true); (2%nat, JBool true)] ∧
   store_writes (log (snd b'')) = []).
Proof.
  split.
  - refine (proj1 propagate_delivers_round_tripping_value jsval js_is_null
              js_typeof_function
              (default_options (JNum 0) (Some "k") (Some localStorage))
              (JFun (λ v, v + 1))
              ({| value := JNum 0; updaters := [] |},
               {| items := <[(localStorage, "k") := "0"]> ∅; listening := false;
                  log := [] |})
              ({| value := JNum 0; updaters := [1%nat; 2%nat] |},
               {| items := <[(localStorage, "k") := "0"]> ∅; listening := true;
                  log := [] |})
              localStorage "k" eq_refl eq_refl eq_refl eq_refl _).
    vm_compute. discriminate.
  - refine (proj2 propagate_delivers_round_tripping_value jsval js_is_null
              js_typeof_function JSON_stringify JSON_parse
              (JNum 0) "k" localStorage (JBool true)
              ({| value := JNum 0; updaters := [] |},
               {| items := <[(localStorage, "k") := "0"]> ∅; listening := false;
                  log := [] |})
              ({| value := JNum 0; updaters := [1%nat; 2%nat] |},
               {| items := <[(localStorage, "k") := "0"]> ∅; listening := true;
                  log := [] |})
              "true" _ eq_refl eq_refl eq_refl eq_refl eq_refl _).
    + discriminate.
    + vm_compute. discriminate.
Defined.

(** ** What histories do to the page *)

Section HistoryFacts.

Context {V : Type} (is_null : V → bool) (typeof_function : V → option (V → V)).
Context (o : SyncStateOptions V).

Lemma storageEventListener_log (ev : StorageEvent) (i : instance V) (w : world V)
    (s' : instance V * world V) :
  storageEventListener is_null o ev i w = Returned s' →
  log (snd s') = log w ∧ value (fst s') = value i ∨
  log (snd s') = log w ++ map (λ u, CallUpdater u (value (fst s'))) (updaters i).
Proof.
  unfold storageEventListener. destruct (_ && _); [|intros [= <-]; by left].
  destruct (deserialize o _) as [v|]; [|done].
  destruct (is_null v); intros [= <-]; [by left|by right].
Qed.

Lemma dispatch_log (ev : StorageEvent) (i : instance V) (w : world V) :
  let s' := dispatch is_null o ev i w in
  log (snd s') = log w ∧ value (fst s') = value i ∨
  log (snd s') = log w ++ map (λ u, CallUpdater u (value (fst s'))) (updaters i).
Proof.
  unfold dispatch. destruct (listening w); [|by left].
  destruct (storageEventListener is_null o ev i w) as [s'|e] eqn:Hs; [|by left].
  by apply storageEventListener_log in Hs.
Qed.

Lemma Forall_instance_effect_updaters (v : V) (l : list updater_id) :
  Forall (instance_effect o) (map (λ u, CallUpdater u v) l).
Proof. apply Forall_map, Forall_true. done. Qed.

(** The calls of one step. *)
Lemma step_log (s : instance V * world V) (a : op V) :
  ∃ es, log (snd (step is_null typeof_function o s a)) = log (snd s) ++ es ∧
        Forall (instance_effect o) es.
Proof.
  destruct s as [i w]. destruct a as [nv|ev|u|u]; cbn [step fst snd].
  - eexists. split; [apply setSyncValue_log|].
    apply Forall_app. split; [apply Forall_instance_effect_updaters|].
    destruct (storage_and_key o) as [[s k]|] eqn:Hsk; [|done].
    by apply Forall_singleton.
  - destruct (dispatch_log ev i w) as [[-> _]| ->].
    + exists []. by rewrite app_nil_r.
    + eexists. split; [done|apply Forall_instance_effect_updaters].
  - unfold useSyncValue_effect.
    destruct (Nat.eqb _ 1); cbn [andb]; [|exists []; by rewrite app_nil_r].
    destruct (has_storage_and_key o) eqn:Hsk; cbn [snd log].
    + eexists. split; [done|]. by apply Forall_singleton.
    + exists []. by rewrite app_nil_r.
  - unfold useSyncValue_cleanup.
    destruct (Nat.eqb _ 0); cbn [andb]; [|exists []; by rewrite app_nil_r].
    destruct (has_storage_and_key o) eqn:Hsk; cbn [snd log].
    + eexists. split; [done|]. by apply Forall_singleton.
    + exists []. by rewrite app_nil_r.
Qed.

Lemma run_log (ops : list (op V)) (s : instance V * world V) :
  ∃ es, log (snd (run is_null typeof_function o ops s)) = log (snd s) ++ es ∧
        Forall (instance_effect o) es.
Proof.
  revert s. induction ops as [|a ops IH]; intros s.
  - exists []. by rewrite app_nil_r.
  - cbn [run fold_left].
    destruct (IH (step is_null typeof_function o s a)) as (es2 & H2 & Hf2).
    destruct (step_log s a) as (es1 & H1 & Hf1).
    exists (es1 ++ es2). unfold run in H2. rewrite H2, H1, app_assoc.
    split; [done|]. by apply Forall_app.
Qed.

(** The storage content after one step. *)
Lemma step_items (s : instance V * world V) (a : op V) :
  items (snd (step is_null typeof_function o s a)) =
    match a, storage_and_key o with
    | Update _, Some (st, k) =>
        <[(st, k) := serialize o (value (fst (step is_null typeof_function o s a)))]>
          (items (snd s))
    | _, _ => items (snd s)
    end.
Proof.
  destruct s as [i w]. destruct a as [nv|ev|u|u]; cbn [step fst snd].
  - unfold setSyncValue, persistToStorage, callUpdaters, emit. cbn.
    by destruct (storage_and_key o) as [[st k]|].
  - by destruct (dispatch_frame is_null o ev i w) as (_ & _ & ->).
  - unfold useSyncValue_effect. by destruct (_ && _).
  - unfold useSyncValue_cleanup. by destruct (_ && _).
Qed.

Lemma setSyncValue_items_at (newValue : V) (i : instance V) (w : world V)
    (st : storage_id) (k : string) :
  storage_and_key o = Some (st, k) →
  items (snd (setSyncValue typeof_function o newValue i w)) !! (st, k) =
    Some (serialize o (value (fst (setSyncValue typeof_function o newValue i w)))).
Proof.
  intros Hsk. unfold setSyncValue, persistToStorage, callUpdaters, emit.
  rewrite Hsk. cbn. apply lookup_insert_eq.
Qed.

Lemma step_value_local (s : instance V * world V) (a : op V) :
  is_update a = false → local a = true →
  value (fst (step is_null typeof_function o s a)) = value (fst s).
Proof.
  destruct a as [nv|ev|u|u]; try done; intros _ _; cbn [step].
  - by rewrite useSyncValue_effect_instance.
  - by rewrite useSyncValue_cleanup_instance.
Qed.

End HistoryFacts.

Section HistoryTheorems.

Context {V : Type} (is_null : V → bool) (typeof_function : V → option (V → V)).
Context (o : SyncStateOptions V).

Lemma store_writes_instance_effect (es : list (effect V)) :
  Forall (instance_effect o) es →
  Forall (λ wr, storage_and_key o = Some wr.1) (store_writes es).
Proof.
  induction 1 as [|e es He _ IH]; [constructor|].
  unfold store_writes in *. destruct e; cbn; try done. by constructor.
Qed.

Lemma onInit_calls_instance_effect (es : list (effect V)) :
  Forall (instance_effect o) es → onInit_calls es = [].
Proof.
  induction 1 as [|e es He _ IH]; [done|].
  unfold onInit_calls in *. destruct e; cbn; done.
Qed.

Lemma run_items_frame (ops : list (op V)) (s : instance V * world V)
    (sk : storage_id * string) :
  storage_and_key o ≠ Some sk →
  items (snd (run is_null typeof_function o ops s)) !! sk = items (snd s) !! sk.
Proof.
  intros Hsk. revert s. induction ops as [|a ops IH]; intros s; [done|].
  cbn [run fold_left]. unfold run in IH. rewrite IH, step_items.
  destruct a; try done.
  destruct (storage_and_key o) as [[st k]|] eqn:Hk; [|done].
  apply lookup_insert_ne. congruence.
Qed.

Lemma run_app (ops1 ops2 : list (op V)) (s : instance V * world V) :
  run is_null typeof_function o (ops1 ++ ops2) s =
    run is_null typeof_function o ops2 (run is_null typeof_function o ops1 s).
Proof. apply fold_left_app. Qed.

(** After a local step the entry under the key still encodes the value
    cell, and an update makes it so. *)
Lemma step_mirror (s : instance V * world V) (a : op V) (st : storage_id)
    (k : string) :
  storage_and_key o = Some (st, k) →
  local a = true →
  is_update a = true ∨
    items (snd s) !! (st, k) = Some (serialize o (value (fst s))) →
  let s' := step is_null typeof_function o s a in
  items (snd s') !! (st, k) = Some (serialize o (value (fst s'))).
Proof.
  intros Hsk Hl Hm s'. subst s'. rewrite step_items, Hsk.
  destruct a as [nv|ev|u|u]; try done.
  - apply lookup_insert_eq.
  - destruct Hm as [?|Hm]; [done|]. by rewrite step_value_local.
  - destruct Hm as [?|Hm]; [done|]. by rewrite step_value_local.
Qed.

Lemma run_mirror (ops : list (op V)) (s : instance V * world V)
    (st : storage_id) (k : string) :
  storage_and_key o = Some (st, k) →
  forallb local ops = true →
  items (snd s) !! (st, k) = Some (serialize o (value (fst s))) →
  let s' := run is_null typeof_function o ops s in
  items (snd s') !! (st, k) = Some (serialize o (value (fst s'))).
Proof.
  intros Hsk. revert s. induction ops as [|a ops IH]; intros s Hl Hm; [done|].
  cbn [forallb] in Hl. apply andb_true_iff in Hl as [Ha Hl].
  cbn [run fold_left]. apply IH; [done|].
  apply step_mirror; auto.
Qed.

Lemma run_updates_only (ops : list (op V)) (s1 s2 : instance V * world V) :
  forallb local ops = true →
  value (fst s1) = value (fst s2) → items (snd s1) = items (snd s2) →
  value (fst (run is_null typeof_function o ops s1)) =
    value (fst (run is_null typeof_function o (filter (λ a, is_update a) ops) s2)) ∧
  items (snd (run is_null typeof_function o ops s1)) =
    items (snd (run is_null typeof_function o (filter (λ a, is_update a) ops) s2)).
Proof.
  revert s1 s2. induction ops as [|a ops IH]; intros s1 s2 Hl Hv Hi; [done|].
  cbn [forallb] in Hl. apply andb_true_iff in Hl as [Ha Hl].
  cbn [run fold_left]. destruct (is_update a) eqn:Hu.
  - rewrite filter_cons_True by (by rewrite Hu). cbn [run fold_left].
    destruct a as [nv| | |]; try done.
    apply IH; [done| |].
    + cbn [step]. by rewrite !setSyncValue_value, Hv.
    + rewrite !step_items. cbn [step].
      rewrite !setSyncValue_value, Hv, Hi. done.
  - rewrite filter_cons_False by (rewrite Hu; exact id).
    apply IH; [done| |].
    + by rewrite step_value_local.
    + rewrite step_items. destruct a; done.
Qed.

End HistoryTheorems.

(** ** Properties of histories *)

(** X1.  Whatever updates, storage events, effects and teardowns happen to
    an instance, every [setItem] call it makes is on its own store and key,
    and every other entry of every store stays as it was. *)
Theorem run_writes_only_own_entry {V : Type} (is_null : V → bool)
    (typeof_function : V → option (V → V)) (o : SyncStateOptions V)
    (ops : list (op V)) (s : instance V * world V) :
  let s' := run is_null typeof_function o ops s in
  (∃ ws, store_writes (log (snd s')) = store_writes (log (snd s)) ++ ws ∧
         Forall (λ wr, storage_and_key o = Some wr.1) ws) ∧
  (∀ sk, storage_and_key o ≠ Some sk →
         items (snd s') !! sk = items (snd s) !! sk).
Proof.
  intros s'. subst s'. split.
  - destruct (run_log is_null typeof_function o ops s) as (es & -> & Hes).
    exists (store_writes es). split.
    + unfold store_writes. apply omap_app.
    + by apply store_writes_instance_effect.
  - intros sk Hsk. by apply run_items_frame.
Qed.

(** X2.  An instance constructed without a store, or without a non-empty
    key, lives in memory only: over every history the storage content stays
    what it was at construction, the storage listener is never registered,
    and the only calls made are updater calls and the one [onInit]. *)
Theorem run_without_storage_stays_in_memory {V : Type} (is_null : V → bool)
    (typeof_function : V → option (V → V)) (o : SyncStateOptions V)
    (items0 : storage_items) (s0 : instance V * world V) (ops : list (op V)) :
  storage_and_key o = None →
  createSyncState is_null o items0 = Returned s0 →
  let s' := run is_null typeof_function o ops s0 in
  items (snd s') = items0 ∧
  listening (snd s') = false ∧
  Forall (λ e, match e with
               | CallUpdater _ _ | CallOnInit _ _ => True
               | _ => False
               end) (log (snd s')).
Proof.
  intros Hsk Hc s'. subst s'.
  assert (listener_invariant o s0) as Hinv.
  { unfold listener_invariant.
    destruct (createSyncState_fresh is_null o items0 s0 Hc) as [-> ->].
    by rewrite andb_false_r. }
  apply (run_listener_invariant is_null typeof_function o ops) in Hinv.
  unfold listener_invariant, has_storage_and_key in Hinv. rewrite Hsk in Hinv.
  assert (items (snd s0) = items0 ∧
          Forall (λ e : effect V, match e with
                       | CallUpdater _ _ | CallOnInit _ _ => True
                       | _ => False
                       end) (log (snd s0))) as [Hi0 Hl0].
  { revert Hc. unfold createSyncState.
    destruct (match storage o with Some _ => _ | None => _ end); [done|].
    unfold getInitialValue, persistToStorage. rewrite Hsk.
    intros [= <-]. cbn [snd]. rewrite callOnInit_items. split; [done|].
    unfold callOnInit. destruct (onInit o); cbn; [|done].
    by apply Forall_singleton. }
  split_and!; [|done|].
  - apply map_eq. intros sk. rewrite <- Hi0.
    apply run_items_frame. by rewrite Hsk.
  - destruct (run_log is_null typeof_function o ops s0) as (es & -> & Hes).
    apply Forall_app. split; [done|].
    eapply Forall_impl; [exact Hes|].
    intros e. unfold instance_effect, has_storage_and_key. rewrite Hsk.
    by destruct e.
Qed.

(** A key without a store: three updates and two hooks later the store is
    untouched and nobody listens. *)
Lemma run_without_storage_stays_in_memory_witness :
  let o := default_options (JNum 0) (Some "k") None in
  let s0 := ({| value := JNum 0; updaters := [] |},
             {| items := <[(localStorage, "k") := "7"]> ∅; listening := false;
                log := [] |}) in
  let s' := run js_is_null js_typeof_function o
              [Mount 1%nat; Update (JNum 1); Mount 2%nat; Update (JNum 2);
               Unmount 1%nat; Update (JNum 3)] s0 in
  items (snd s') = <[(localStorage, "k") := "7"]> ∅ ∧
  listening (snd s') = false ∧
  Forall (λ e, match e with
               | CallUpdater _ _ | CallOnInit _ _ => True
               | _ => False
               end) (log (snd s')).
Proof.
  exact (run_without_storage_stays_in_memory js_is_null js_typeof_function
           (default_options (JNum 0) (Some "k") None)
           (<[(localStorage, "k") := "7"]> ∅)
           ({| value := JNum 0; updaters := [] |},
            {| items := <[(localStorage, "k") := "7"]> ∅; listening := false;
               log := [] |})
           [Mount 1%nat; Update (JNum 1); Mount 2%nat; Update (JNum 2);
            Unmount 1%nat; Update (JNum 3)]
           eq_refl eq_refl).
Defined.

(** X3.  With an [onInit] callback, construction calls it exactly once,
    with the initial value, as its last call (after the write of the
    default, when there is one); no later update, storage event, effect or
    teardown calls it again. *)
Theorem onInit_called_once_at_construction {V : Type} (is_null : V → bool)
    (typeof_function : V → option (V → V)) (o : SyncStateOptions V)
    (items0 : storage_items) (s0 : instance V * world V) (ops : list (op V))
    (cb : callback) :
  onInit o = Some cb →
  createSyncState is_null o items0 = Returned s0 →
  (∃ pre, log (snd s0) = pre ++ [CallOnInit cb (value (fst s0))] ∧
          onInit_calls pre = [] ∧
          store_writes pre = store_writes (log (snd s0))) ∧
  onInit_calls (log (snd (run is_null typeof_function o ops s0))) =
    [(cb, value (fst s0))].
Proof.
  intros Hcb Hc.
  assert (∃ pre, log (snd s0) = pre ++ [CallOnInit cb (value (fst s0))] ∧
                 onInit_calls pre = [] ∧
                 store_writes pre = store_writes (log (snd s0)))
    as (pre & Hlog & Hpre & Hw).
  { revert Hc. unfold createSyncState.
    destruct (match storage o with Some _ => _ | None => _ end); [done|].
    destruct (getInitialValue is_null o _) as [[v w]|e] eqn:Hg; [|done].
    intros [= <-]. cbn [fst snd value].
    unfold callOnInit, emit. rewrite Hcb. cbn [log].
    exists (log w). split; [done|].
    unfold getInitialValue, persistToStorage in Hg.
    assert (onInit_calls (log w) = []) as ->.
    { destruct (storage_and_key o) as [[s k]|]; cbn in Hg.
      - destruct (deserialize o _) as [sv|]; [|done].
        destruct (is_null sv); by injection Hg as <- <-.
      - by injection Hg as <- <-. }
    split; [done|]. unfold store_writes. rewrite omap_app. cbn.
    by rewrite app_nil_r. }
  split; [by exists pre|].
  destruct (run_log is_null typeof_function o ops s0) as (es & -> & Hes).
  pose proof (onInit_calls_instance_effect o es Hes) as Hes'.
  rewrite Hlog. unfold onInit_calls in *. by rewrite !omap_app, Hpre, Hes'.
Qed.

(** The test of the init callback with a stored value: [onInit] sees 5,
    once, also after an update. *)
Lemma onInit_called_once_at_construction_witness :
  let o := {| defaultValue := JNum 0; key := Some "k"; storage := Some localStorage;
              serialize := default_serialize; deserialize := default_deserialize;
              onInit := Some 8%nat; onUpdate := None |} in
  let s0 := ({| value := JNum 5; updaters := [] |},
             {| items := <[(localStorage, "k") := "5"]> ∅; listening := false;
                log := [CallOnInit 8%nat (JNum 5)] |}) in
  onInit_calls (log (snd (run js_is_null js_typeof_function o
                            [Mount 1%nat; Update (JNum 6)] s0)))
    = [(8%nat, JNum 5)].
Proof.
  exact (proj2 (onInit_called_once_at_construction js_is_null js_typeof_function
           {| defaultValue := JNum 0; key := Some "k"; storage := Some localStorage;
              serialize := default_serialize; deserialize := default_deserialize;
              onInit := Some 8%nat; onUpdate := None |}
           (<[(localStorage, "k") := "5"]> ∅)
           ({| value := JNum 5; updaters := [] |},
            {| items := <[(localStorage, "k") := "5"]> ∅; listening := false;
               log := [CallOnInit 8%nat (JNum 5)] |})
           [Mount 1%nat; Update (JNum 6)] 8%nat eq_refl eq_refl)).
Defined.

(** X4.  With a store and key configured, once an update has run, and as
    long as no storage event comes in, the entry under the key is the
    encoding of the current value cell: later updates overwrite it, effects
    and teardowns leave it and the cell alone. *)
Theorem store_holds_encoding_of_value {V : Type} (is_null : V → bool)
    (typeof_function : V → option (V → V)) (o : SyncStateOptions V)
    (st : storage_id) (k : string) (before after : list (op V)) (newValue : V)
    (s : instance V * world V) :
  storage_and_key o = Some (st, k) →
  forallb local after = true →
  let s' := run is_null typeof_function o (before ++ Update newValue :: after) s in
  items (snd s') !! (st, k) = Some (serialize o (value (fst s'))).
Proof.
  intros Hsk Hl s'. subst s'.
  rewrite run_app. cbn [run fold_left].
  apply (run_mirror is_null typeof_function o after _ st k Hsk Hl).
  apply step_mirror; auto.
Qed.

(** A storage event for 9, then [update(1)], [update(v => v + 1)] around a
    mount and a teardown: the store holds ["2"]. *)
Lemma store_holds_encoding_of_value_witness :
  let o := default_options (JNum 0) (Some "k") (Some localStorage) in
  let s := ({| value := JNum 0; updaters := [1%nat] |},
            {| items := <[(localStorage, "k") := "0"]> ∅; listening := true;
               log := [] |}) in
  let s' := run js_is_null js_typeof_function o
              ([External {| storageArea := Some localStorage; event_key := Some "k";
                            event_newValue := Some "9" |}]
               ++ Update (JNum 1)
               :: [Mount 2%nat; Update (JFun (λ v, v + 1)); Unmount 1%nat]) s in
  items (snd s') !! (localStorage, "k") = Some (serialize o (value (fst s'))).
Proof.
  exact (store_holds_encoding_of_value js_is_null js_typeof_function
           (default_options (JNum 0) (Some "k") (Some localStorage))
           localStorage "k"
           [External {| storageArea := Some localStorage; event_key := Some "k";
                        event_newValue := Some "9" |}]
           [Mount 2%nat; Update (JFun (λ v, v + 1)); Unmount 1%nat]
           (JNum 1)
           ({| value := JNum 0; updaters := [1%nat] |},
            {| items := <[(localStorage, "k") := "0"]> ∅; listening := true;
               log := [] |})
           eq_refl eq_refl).
Defined.

(** X5.  Without storage events, the value cell and the storage content
    after a history are those after its updates alone: mounting and
    unmounting hooks, in any order and number, changes neither, so a hook
    mounted after every other hook is gone starts from the latest value. *)
Theorem run_value_depends_on_updates_only {V : Type} (is_null : V → bool)
    (typeof_function : V → option (V → V)) (o : SyncStateOptions V)
    (ops : list (op V)) (s : instance V * world V) (mapper : option (V → V)) :
  forallb local ops = true →
  let s' := run is_null typeof_function o ops s in
  let s'' := run is_null typeof_function o (filter (λ a, is_update a) ops) s in
  value (fst s') = value (fst s'') ∧
  items (snd s') = items (snd s'') ∧
  hook_state (useSyncValue_render mapper (fst s')) =
    useSyncValue_state mapper (fst s'').
Proof.
  intros Hl s' s''. subst s' s''.
  destruct (run_updates_only is_null typeof_function o ops s s Hl eq_refl eq_refl)
    as [Hv Hi].
  split_and!; [done|done|].
  unfold useSyncValue_render, useSyncValue_state. cbn. by rewrite Hv.
Qed.

(** The last hook leaves, two updates run unobserved, a hook mounts: it
    would show 6, as after the updates alone. *)
Lemma run_value_depends_on_updates_only_witness :
  let s := ({| value := JNum 0; updaters := [] |},
            {| items := (∅ : storage_items); listening := false; log := [] |}) in
  let ops := [Mount 1%nat; Update (JNum 2); Unmount 1%nat;
              Update (JFun (λ v, v * 3)); Mount 2%nat] in
  let s' := run js_is_null js_typeof_function counter ops s in
  let s'' := run js_is_null js_typeof_function counter
               [Update (JNum 2); Update (JFun (λ v, v * 3))] s in
  value (fst s') = value (fst s'') ∧
  items (snd s') = items (snd s'') ∧
  hook_state (useSyncValue_render None (fst s')) = JNum 6.
Proof.
  exact (run_value_depends_on_updates_only js_is_null js_typeof_function counter
           [Mount 1%nat; Update (JNum 2); Unmount 1%nat;
            Update (JFun (λ v, v * 3)); Mount 2%nat]
           ({| value := JNum 0; updaters := [] |},
            {| items := (∅ : storage_items); listening := false; log := [] |})
           None eq_refl).
Defined.

(** X6.  A value persisted by an update survives a reload: constructing
    again over the storage the update left, with a decoder that gives the
    value back, starts from that value and writes nothing, unless the value
    is [null], in which case construction starts from the default and
    overwrites the entry with the encoded default. *)
Theorem createSyncState_restores_persisted_value {V : Type} (is_null : V → bool)
    (typeof_function : V → option (V → V)) (o : SyncStateOptions V)
    (st : storage_id) (k : string) (newValue : V) (i : instance V) (w : world V) :
  storage_and_key o = Some (st, k) →
  let s1 := setSyncValue typeof_function o newValue i w in
  let v := value (fst s1) in
  deserialize o (Some (serialize o v)) = Some v →
  ∃ i' w',
    createSyncState is_null o (items (snd s1)) = Returned (i', w') ∧
    if is_null v
    then value i' = defaultValue o ∧
         items w' !! (st, k) = Some (serialize o (defaultValue o))
    else value i' = v ∧ items w' = items (snd s1) ∧ store_writes (log w') = [].
Proof.
  intros Hsk s1 v Hrt.
  assert (items (snd s1) !! (st, k) = Some (serialize o v)) as Hit.
  { subst s1 v. rewrite (setSyncValue_items_at typeof_function o newValue i w st k Hsk).
    done. }
  unfold createSyncState.
  assert (match storage o with Some _ => key_falsy (key o) | None => false end
          = false) as ->.
  { apply storage_and_key_Some in Hsk as (-> & -> & Hk). cbn.
    by apply String.eqb_neq. }
  unfold getInitialValue. rewrite Hsk. cbn [items]. rewrite Hit, Hrt.
  destruct (is_null v).
  - eexists _, _. split; [reflexivity|].
    rewrite callOnInit_items. unfold persistToStorage. rewrite Hsk. cbn.
    split; [done|]. apply lookup_insert_eq.
  - eexists _, _. split; [reflexivity|].
    by rewrite callOnInit_items, callOnInit_writes.
Qed.

(** The counter is set to 4 and the page reloads: it starts from 4. *)
Lemma createSyncState_restores_persisted_value_witness :
  let o := default_options (JNum 0) (Some "k") (Some localStorage) in
  let s1 := setSyncValue js_typeof_function o (JNum 4)
              {| value := JNum 0; updaters := [] |}
              {| items := <[(localStorage, "k") := "0"]> ∅; listening := false;
                 log := [] |} in
  ∃ i' w',
    createSyncState js_is_null o (items (snd s1)) = Returned (i', w') ∧
    value i' = JNum 4 ∧ items w' = items (snd s1) ∧ store_writes (log w') = [].
Proof.
  exact (createSyncState_restores_persisted_value js_is_null js_typeof_function
           (default_options (JNum 0) (Some "k") (Some localStorage))
           localStorage "k" (JNum 4)
           {| value := JNum 0; updaters := [] |}
           {| items := <[(localStorage, "k") := "0"]> ∅; listening := false;
              log := [] |}
           eq_refl eq_refl).
Defined.

(** X7.  The constructor of the TypeScript source never reads the store: it
    starts from the default whatever is stored, and with a store and key it
    overwrites the entry with the encoded default, so a value persisted by
    an update is lost on the next construction. *)
Theorem createSyncState_ts_discards_persisted_value {V : Type}
    (typeof_function : V → option (V → V)) (o : SyncStateOptions V)
    (st : storage_id) (k : string) (newValue : V) (i : instance V) (w : world V) :
  storage_and_key o = Some (st, k) →
  let s1 := setSyncValue typeof_function o newValue i w in
  items (snd s1) !! (st, k) = Some (serialize o (value (fst s1))) ∧
  ∃ i' w',
    createSyncState_ts o (items (snd s1)) = Returned (i', w') ∧
    value i' = defaultValue o ∧
    items w' !! (st, k) = Some (serialize o (defaultValue o)) ∧
    store_writes (log w') = [(st, k, serialize o (defaultValue o))].
Proof.
  intros Hsk s1. subst s1. split.
  - by rewrite (setSyncValue_items_at typeof_function o newValue i w st k Hsk).
  - unfold createSyncState_ts.
    assert (match storage o with Some _ => key_falsy (key o) | None => false end
            = false) as ->.
    { apply storage_and_key_Some in Hsk as (-> & -> & Hk). cbn.
      by apply String.eqb_neq. }
    eexists _, _. split; [reflexivity|].
    unfold persistToStorage. rewrite Hsk. cbn.
    split_and!; [done| |done]. apply lookup_insert_eq.
Qed.

(** The counter is set to 4; the TypeScript constructor starts from 0 again
    and leaves ["0"] in the store. *)
Lemma createSyncState_ts_discards_persisted_value_witness :
  let o := default_options (JNum 0) (Some "k") (Some localStorage) in
  let s1 := setSyncValue js_typeof_function o (JNum 4)
              {| value := JNum 0; updaters := [] |}
              {| items := ∅; listening := false; log := [] |} in
  items (snd s1) !! (localStorage, "k") = Some "4" ∧
  ∃ i' w',
    createSyncState_ts o (items (snd s1)) = Returned (i', w') ∧
    value i' = JNum 0 ∧
    items w' !! (localStorage, "k") = Some "0" ∧
    store_writes (log w') = [(localStorage, "k", "0")].
Proof.
  exact (createSyncState_ts_discards_persisted_value js_typeof_function
           (default_options (JNum 0) (Some "k") (Some localStorage))
           localStorage "k" (JNum 4)
           {| value := JNum 0; updaters := [] |}
           {| items := ∅; listening := false; log := [] |}
           eq_refl).
Defined.

(** ** Storage events and teardowns at the edges *)

(** X8.  A write of a sibling tab that arrives while the storage listener is
    not registered (no hook is mounted) is not heard: the store holds the
    new string, but the value cell, the registry and the log stay as they
    were, and a hook mounted afterwards starts from the old value. *)
Theorem propagate_unheard_without_listener {V : Type} (is_null : V → bool)
    (typeof_function : V → option (V → V)) (o : SyncStateOptions V)
    (st : storage_id) (k : string) (newValue : V)
    (a b : instance V * world V) (mapper : option (V → V)) :
  storage_and_key o = Some (st, k) →
  listening (snd b) = false →
  let r := propagate is_null typeof_function o newValue a b in
  items (snd (snd r)) !! (st, k) = Some (serialize o (value (fst (fst r)))) ∧
  fst (snd r) = fst b ∧
  log (snd (snd r)) = log (snd b) ∧
  hook_state (useSyncValue_render mapper (fst (snd r))) =
    useSyncValue_state mapper (fst b).
Proof.
  intros Hsk Hl r. subst r. rewrite propagate_unfold. cbn [snd fst].
  rewrite Hsk. unfold receive, dispatch. cbn [fst snd listening]. rewrite Hl.
  destruct (bool_decide _); cbn [fst snd items log];
    (split_and!; [apply lookup_insert_eq|done|done|done]).
Qed.

(** Tab [a] sets the counter to 4 while tab [b] has no hook: [b] still holds
    0 although the store says ["4"]. *)
Lemma propagate_unheard_without_listener_witness :
  let o := default_options (JNum 0) (Some "k") (Some localStorage) in
  let a := ({| value := JNum 0; updaters := [] |},
            {| items := <[(localStorage, "k") := "0"]> ∅; listening := false;
               log := [] |}) in
  let r := propagate js_is_null js_typeof_function o (JNum 4) a a in
  items (snd (snd r)) !! (localStorage, "k") = Some "4" ∧
  fst (snd r) = {| value := JNum 0; updaters := [] |} ∧
  log (snd (snd r)) = [] ∧
  hook_state (useSyncValue_render None (fst (snd r))) = JNum 0.
Proof.
  exact (propagate_unheard_without_listener js_is_null js_typeof_function
           (default_options (JNum 0) (Some "k") (Some localStorage))
           localStorage "k" (JNum 4)
           ({| value := JNum 0; updaters := [] |},
            {| items := <[(localStorage, "k") := "0"]> ∅; listening := false;
               log := [] |})
           ({| value := JNum 0; updaters := [] |},
            {| items := <[(localStorage, "k") := "0"]> ∅; listening := false;
               log := [] |})
           None eq_refl eq_refl).
Defined.

(** X9.  No storage event, whatever it carries and whatever the decoder
    does with it (raising included), makes the instance write to a store,
    change its registry or change the registration of its listener; the
    only calls it can cause are calls of the registered updaters, in
    registry order, with the new content of the value cell. *)
Theorem dispatch_never_writes {V : Type} (is_null : V → bool)
    (o : SyncStateOptions V) (ev : StorageEvent) (i : instance V) (w : world V) :
  let s' := dispatch is_null o ev i w in
  updaters (fst s') = updaters i ∧
  listening (snd s') = listening w ∧
  items (snd s') = items w ∧
  store_writes (log (snd s')) = store_writes (log w) ∧
  (s' = (i, w) ∨
   log (snd s') = log w ++ map (λ u, CallUpdater u (value (fst s'))) (updaters i)).
Proof.
  intros s'. subst s'.
  destruct (dispatch_frame is_null o ev i w) as (Hu & Hl & Hi).
  split_and!; try done.
  - destruct (dispatch_log is_null o ev i w) as [[-> _]| ->]; [done|].
    unfold store_writes. rewrite omap_app, omap_map_None by done.
    apply app_nil_r.
  - unfold dispatch. destruct (listening w); [|by left].
    destruct (storageEventListener is_null o ev i w) as [s'|e] eqn:Hs; [|by left].
    revert Hs. unfold storageEventListener. destruct (_ && _); [|intros [= <-]; by left].
    destruct (deserialize o _) as [v|]; [|done].
    destruct (is_null v); intros [= <-]; [by left|by right].
Qed.

(** X10.  A teardown run for an updater that is not in the registry removes
    the last registered updater (and nothing from an empty registry); when
    that empties the registry of an instance with a store and key, the
    storage listener is removed as well. *)
Theorem useSyncValue_cleanup_unregistered_removes_last {V : Type}
    (o : SyncStateOptions V) (u : updater_id) (i : instance V) (w : world V) :
  u ∉ updaters i →
  let s' := useSyncValue_cleanup o u i w in
  updaters (fst s') = take (length (updaters i) - 1) (updaters i) ∧
  value (fst s') = value i ∧
  ((length (updaters i) ≤ 1)%nat → has_storage_and_key o = true →
   listening (snd s') = false).
Proof.
  intros Hu s'. subst s'.
  pose proof (useSyncValue_cleanup_unregistered o u i w Hu) as Hreg.
  split_and!; [done|by rewrite useSyncValue_cleanup_instance|].
  intros Hlen Hsk. revert Hreg. unfold useSyncValue_cleanup. rewrite Hsk.
  destruct (splice1 _ _) as [|x l] eqn:Hsp; cbn; [done|].
  intros [= Hx]. exfalso.
  assert (length (take (length (updaters i) - 1) (updaters i)) = 0%nat) as Hz.
  { rewrite length_take. lia. }
  by rewrite <- Hx in Hz.
Qed.

(** Hook 2 is mounted alone; the teardown of hook 1, which is not mounted,
    removes hook 2's updater and the storage listener. *)
Lemma useSyncValue_cleanup_unregistered_removes_last_witness :
  let o := default_options (JNum 0) (Some "k") (Some localStorage) in
  let s' := useSyncValue_cleanup o 1%nat
              {| value := JNum 0; updaters := [2%nat] |}
              {| items := ∅; listening := true; log := [] |} in
  updaters (fst s') = [] ∧ value (fst s') = JNum 0 ∧ listening (snd s') = false.
Proof.
  pose proof (useSyncValue_cleanup_unregistered_removes_last
                (default_options (JNum 0) (Some "k") (Some localStorage)) 1%nat
                {| value := JNum 0; updaters := [2%nat] |}
                {| items := ∅; listening := true; log := [] |}) as H.
  destruct H as (H1 & H2 & H3).
  - intros Hin. apply list_elem_of_singleton in Hin. discriminate Hin.
  - split_and!; [exact H1|exact H2|].
    apply H3; [simpl; lia|reflexivity].
Defined.

(** ** Components *)

Section HookFacts.

Context {V : Type} (is_null : V → bool) (typeof_function : V → option (V → V)).
Context (o : SyncStateOptions V).

Lemma deliver_app (es1 es2 : list (effect V)) (hooks : gmap updater_id (hook V)) :
  deliver (es1 ++ es2) hooks = deliver es2 (deliver es1 hooks).
Proof. apply fold_left_app. Qed.

Lemma deliver_persist (v : V) (hooks : gmap updater_id (hook V)) :
  deliver match storage_and_key o with
          | Some (s, k) => [SetItem s k (serialize o v)]
          | None => []
          end hooks = hooks.
Proof. by destruct (storage_and_key o) as [[s k]|]. Qed.

Lemma deliver_cons (e : effect V) (es : list (effect V))
    (hooks : gmap updater_id (hook V)) :
  deliver (e :: es) hooks = deliver es (apply_effect hooks e).
Proof. done. Qed.

(** The hooks after the updaters of [l] were called with [v]. *)
Lemma deliver_updaters (v : V) (l : list updater_id)
    (hooks : gmap updater_id (hook V)) (u : updater_id) :
  deliver (map (λ x, CallUpdater x v) l) hooks !! u =
    if bool_decide (u ∈ l) then call_stateUpdater v <$> hooks !! u
    else hooks !! u.
Proof.
  revert hooks. induction l as [|x l IH]; intros hooks; [done|].
  cbn [map]. rewrite deliver_cons. cbn [apply_effect].
  rewrite IH, lookup_alter.
  destruct (decide (x = u)) as [->|Hne].
  - rewrite (bool_decide_eq_true_2 (u ∈ u :: l)) by apply list_elem_of_here.
    destruct (bool_decide (u ∈ l)); [|done].
    by destruct (hooks !! u).
  - destruct (bool_decide (u ∈ l)) eqn:Hin.
    + apply bool_decide_eq_true in Hin.
      by rewrite bool_decide_eq_true_2 by (by apply list_elem_of_further).
    + apply bool_decide_eq_false in Hin.
      rewrite bool_decide_eq_false_2; [done|].
      intros [?|?]%elem_of_cons; done.
Qed.

Lemma page_update_hooks (newValue : V) (i : instance V) (w : world V)
    (hooks : gmap updater_id (hook V)) (u : updater_id) :
  let p' := page_step is_null typeof_function o (i, w, hooks) (PageUpdate newValue) in
  snd p' !! u =
    if bool_decide (u ∈ updaters i)
    then call_stateUpdater (value (fst (fst p'))) <$> hooks !! u
    else hooks !! u.
Proof.
  cbn [page_step fst snd].
  rewrite (setSyncValue_log typeof_function o newValue i w), drop_app_length.
  by rewrite deliver_app, deliver_persist, deliver_updaters.
Qed.

Lemma page_external_hooks (ev : StorageEvent) (i : instance V) (w : world V)
    (hooks : gmap updater_id (hook V)) (u : updater_id) :
  let p' := page_step is_null typeof_function o (i, w, hooks) (PageExternal ev) in
  (value (fst (fst p')) = value i ∧ snd p' = hooks) ∨
  snd p' !! u =
    if bool_decide (u ∈ updaters i)
    then call_stateUpdater (value (fst (fst p'))) <$> hooks !! u
    else hooks !! u.
Proof.
  cbn [page_step fst snd].
  destruct (dispatch_log is_null o ev i w) as [[-> Hv]| ->].
  - left. split; [done|]. by rewrite drop_all.
  - right. by rewrite drop_app_length, deliver_updaters.
Qed.

Lemma splice1_subseteq (start : Z) (l : list updater_id) (x : updater_id) :
  x ∈ splice1 start l → x ∈ l.
Proof.
  unfold splice1. intros Hx.
  eapply elem_of_sublist; [done|apply sublist_delete].
Qed.

(** Updates, storage events and unmounts keep every registered component
    current. *)
Lemma page_step_hooks_current (p : instance V * world V * gmap updater_id (hook V))
    (a : page_op V) :
  match a with
  | PageUpdate _ | PageExternal _ | PageUnmount _ => True
  | _ => False
  end →
  hooks_current p →
  hooks_current (page_step is_null typeof_function o p a).
Proof.
  destruct p as [[i w] hooks]. unfold hooks_current. intros Ha Hp.
  destruct a as [nv|ev|u m|u|u|u m]; try done; intros x h.
  - rewrite page_update_hooks. cbn [page_step fst snd].
    rewrite setSyncValue_updaters. intros Hx.
    rewrite bool_decide_eq_true_2 by done.
    destruct (hooks !! x) as [h0|]; [|done]. by intros [= <-].
  - destruct (page_external_hooks ev i w hooks x) as [[Hv Hh]|Hh].
    + rewrite Hh, Hv. cbn [page_step fst snd].
      rewrite (proj1 (dispatch_frame is_null o ev i w)). apply Hp.
    + rewrite Hh. cbn [page_step fst snd].
      rewrite (proj1 (dispatch_frame is_null o ev i w)). intros Hx.
      rewrite bool_decide_eq_true_2 by done.
      destruct (hooks !! x) as [h0|]; [|done]. by intros [= <-].
  - cbn [page_step fst snd]. rewrite useSyncValue_cleanup_instance. cbn [updaters value].
    intros Hx%splice1_subseteq Hh.
    apply lookup_delete_Some in Hh as [_ Hh]. by apply (Hp x).
Qed.

Lemma hooks_current_with_nil (p : instance V * world V * gmap updater_id (hook V)) :
  hooks_current_with [] p ↔ hooks_current p.
Proof.
  unfold hooks_current_with, hooks_current. split; intros Hp u h Hu.
  - apply Hp. by left.
  - destruct Hu as [Hu|Hu]; [by apply Hp|]. by apply elem_of_nil in Hu.
Qed.

(** A first render adds a component that waits for its effect and shows
    the projection of the value cell. *)
Lemma page_first_render_hooks_current (pending : list updater_id)
    (p : instance V * world V * gmap updater_id (hook V))
    (u : updater_id) (m : option (V → V)) :
  hooks_current_with pending p →
  hooks_current_with (u :: pending)
    (page_step is_null typeof_function o p (PageFirstRender u m)).
Proof.
  destruct p as [[i w] hooks]. unfold hooks_current_with. intros Hp x h.
  cbn [page_step fst snd]. intros Hx. destruct (decide (u = x)) as [->|Hne].
  - rewrite lookup_insert_eq. intros [= <-]. by destruct m.
  - rewrite lookup_insert_ne by done. apply Hp.
    destruct Hx as [Hx|Hx]; [by left|right].
    apply elem_of_cons in Hx as [Hx|Hx]; [congruence|done].
Qed.

(** The effect of a component that waits for it registers a current
    component. *)
Lemma page_effect_hooks_current (pending : list updater_id)
    (p : instance V * world V * gmap updater_id (hook V)) (u : updater_id) :
  u ∈ pending →
  hooks_current_with pending p →
  hooks_current_with (filter (λ x, x ≠ u) pending)
    (page_step is_null typeof_function o p (PageEffect u)).
Proof.
  destruct p as [[i w] hooks]. unfold hooks_current_with. intros Hu Hp x h.
  cbn [page_step fst snd]. rewrite useSyncValue_effect_instance.
  cbn [updaters value]. intros Hx. apply Hp.
  destruct Hx as [Hx|Hx].
  - apply elem_of_app in Hx as [Hx|Hx]; [by left|right].
    apply list_elem_of_singleton in Hx. by subst.
  - right. by apply list_elem_of_filter in Hx as [_ Hx].
Qed.

(** A teardown drops its component and registers nothing. *)
Lemma page_unmount_hooks_current (pending : list updater_id)
    (p : instance V * world V * gmap updater_id (hook V)) (u : updater_id) :
  hooks_current_with pending p →
  hooks_current_with pending
    (page_step is_null typeof_function o p (PageUnmount u)).
Proof.
  destruct p as [[i w] hooks]. unfold hooks_current_with. intros Hp x h.
  cbn [page_step fst snd]. rewrite useSyncValue_cleanup_instance.
  cbn [updaters value]. intros Hx Hh.
  apply lookup_delete_Some in Hh as [_ Hh]. apply (Hp x); [|done].
  destruct Hx as [Hx|Hx]; [left|by right]. by apply splice1_subseteq in Hx.
Qed.

Lemma page_run_prompt (ops : list (page_op V)) (pending : list updater_id)
    (p : instance V * world V * gmap updater_id (hook V)) :
  prompt pending ops = true → hooks_current_with pending p →
  hooks_current (page_run is_null typeof_function o ops p).
Proof.
  revert pending p. induction ops as [|a ops IH]; intros pending p Hops Hp.
  { intros u h Hu. apply Hp. by left. }
  unfold page_run. cbn [fold_left]. fold (page_run is_null typeof_function o ops).
  destruct a as [nv|ev|u m|u|u|u m]; cbn [prompt] in Hops; try done.
  - destruct pending; [|done]. apply (IH []); [done|].
    apply hooks_current_with_nil, page_step_hooks_current; [done|].
    by apply hooks_current_with_nil.
  - destruct pending; [|done]. apply (IH []); [done|].
    apply hooks_current_with_nil, page_step_hooks_current; [done|].
    by apply hooks_current_with_nil.
  - apply (IH (u :: pending)); [done|]. by apply page_first_render_hooks_current.
  - apply andb_true_iff in Hops as [Hu Hops]. apply bool_decide_eq_true in Hu.
    apply (IH (filter (λ x, x ≠ u) pending)); [done|].
    by apply page_effect_hooks_current.
  - apply (IH pending); [done|]. by apply page_unmount_hooks_current.
Qed.

End HookFacts.

(** X11.  One update sets the state of every component whose updater is
    registered to that component's own projection of the raw new value (the
    raw value itself without a mapper); a component whose updater is not in
    the registry keeps the state it had. *)
Theorem page_update_sets_registered_hooks {V : Type} (is_null : V → bool)
    (typeof_function : V → option (V → V)) (o : SyncStateOptions V)
    (newValue : V) (i : instance V) (w : world V)
    (hooks : gmap updater_id (hook V)) (u : updater_id) (h : hook V) :
  hooks !! u = Some h →
  let p' := page_step is_null typeof_function o (i, w, hooks) (PageUpdate newValue) in
  let v := value (fst (fst p')) in
  (u ∈ updaters i →
   ∃ h', snd p' !! u = Some h' ∧
         mapperRef h' = mapperRef h ∧
         hook_state h' = match mapperRef h with Some m => m v | None => v end) ∧
  (u ∉ updaters i → snd p' !! u = Some h).
Proof.
  intros Hh p' v. subst p' v.
  rewrite page_update_hooks, Hh. split; intros Hu.
  - rewrite bool_decide_eq_true_2 by done. eexists. by split_and!.
  - by rewrite bool_decide_eq_false_2 by done.
Qed.

(** The README's double display: after [update(v => v + 1)] from 4 it
    shows 10, while the updater was called with the raw 5. *)
Lemma page_update_sets_registered_hooks_witness :
  let double := λ v, match ToNumber v with Some n => JNum (n * 2) | None => JNaN end in
  let h := {| mapperRef := Some double; hook_state := JNum 8 |} in
  let hooks : gmap updater_id (hook jsval) :=
    <[1%nat := {| mapperRef := None; hook_state := JNum 4 |}]> (<[2%nat := h]> ∅) in
  let p' := page_step js_is_null js_typeof_function counter
              ({| value := JNum 4; updaters := [1%nat; 2%nat] |},
               {| items := ∅; listening := false; log := [] |}, hooks)
              (PageUpdate (JFun (λ v, v + 1))) in
  value (fst (fst p')) = JNum 5 ∧
  ∃ h', snd p' !! 2%nat = Some h' ∧
        mapperRef h' = mapperRef h ∧
        hook_state h' = JNum 10.
Proof.
  split; [reflexivity|].
  refine (proj1 (page_update_sets_registered_hooks js_is_null js_typeof_function
                   counter (JFun (λ v, v + 1))
                   {| value := JNum 4; updaters := [1%nat; 2%nat] |}
                   {| items := ∅; listening := false; log := [] |}
                   (<[1%nat := {| mapperRef := None; hook_state := JNum 4 |}]>
                      (<[2%nat := {| mapperRef :=
                                       Some (λ v, match ToNumber v with
                                                  | Some n => JNum (n * 2)
                                                  | None => JNaN
                                                  end);
                                     hook_state := JNum 8 |}]> ∅))
                   2%nat _ _) _).
  - reflexivity.
  - apply list_elem_of_further, list_elem_of_here.
Defined.

(** X12.  In React's order (an effect runs for a component that has
    rendered and waits for it, no update and no storage event comes in
    while a rendered component waits for its effect, no component is
    rendered again), every component whose updater is registered shows its
    projection of the current value cell after every history of updates,
    storage events, first renders, effects and unmounts.  An update that
    falls between a first render and its effect is missed: the component is
    then registered while it shows its projection of the old value. *)
Theorem page_run_hooks_current :
  (∀ (V : Type) (is_null : V → bool) (typeof_function : V → option (V → V))
     (o : SyncStateOptions V) (ops : list (page_op V))
     (p : instance V * world V * gmap updater_id (hook V)),
     prompt [] ops = true →
     hooks_current p →
     let p' := page_run is_null typeof_function o ops p in
     ∀ u h, u ∈ updaters (fst (fst p')) → snd p' !! u = Some h →
            hook_state h = stateUpdater (mapperRef h) (value (fst (fst p')))) ∧
  (∀ (V : Type) (is_null : V → bool) (typeof_function : V → option (V → V))
     (o : SyncStateOptions V) (u : updater_id) (mapper : option (V → V))
     (newValue : V) (i : instance V) (w : world V)
     (hooks : gmap updater_id (hook V)),
     u ∉ updaters i →
     let p' := page_run is_null typeof_function o
                 [PageFirstRender u mapper; PageUpdate newValue; PageEffect u]
                 (i, w, hooks) in
     value (fst (fst p')) = value (fst (setSyncValue typeof_function o newValue i w)) ∧
     u ∈ updaters (fst (fst p')) ∧
     ∃ h, snd p' !! u = Some h ∧
          mapperRef h = mapper ∧
          hook_state h = stateUpdater mapper (value i)).
Proof.
  split.
  - intros V is_null tf o ops p Hops Hp p'.
    apply (page_run_prompt is_null tf o ops [] p); [done|].
    by apply hooks_current_with_nil.
  - intros V is_null tf o u mapper newValue i w hooks Hu p'. subst p'.
    cbn [page_run fold_left].
    set (p1 := page_step is_null tf o (i, w, hooks) (PageFirstRender u mapper)).
    assert (p1 = (i, w, <[u := useSyncValue_render mapper i]> hooks)) as -> by done.
    pose proof (page_update_hooks is_null tf o newValue i w
                  (<[u := useSyncValue_render mapper i]> hooks) u) as Hh.
    cbn zeta in Hh. rewrite bool_decide_eq_false_2, lookup_insert_eq in Hh by done.
    set (p2 := page_step is_null tf o _ (PageUpdate newValue)) in *.
    assert (fst p2 = setSyncValue tf o newValue i w) as Hp2 by done.
    cbn [page_step fst snd]. rewrite useSyncValue_effect_instance. cbn [value updaters].
    rewrite Hp2, setSyncValue_updaters. split_and!.
    + done.
    + apply elem_of_app. right. apply list_elem_of_here.
    + eexists. split; [exact Hh|]. split; [done|]. by destruct mapper.
Qed.

(** Two displays render, then their effects run; the counter is updated, a
    sibling tab writes 7, one display unmounts and the counter is
    incremented: the double display shows 16, its projection of the 8 in
    the value cell.  A third display renders at 8, the counter is set to 9
    before its effect runs: it is registered and shows 8. *)
Lemma page_run_hooks_current_witness :
  let double := λ v, match ToNumber v with Some n => JNum (n * 2) | None => JNaN end in
  let o := default_options (JNum 0) (Some "k") (Some localStorage) in
  let p := ({| value := JNum 0; updaters := [] |},
            {| items := <[(localStorage, "k") := "0"]> ∅; listening := false;
               log := [] |}, (∅ : gmap updater_id (hook jsval))) in
  let p' := page_run js_is_null js_typeof_function o
              [PageFirstRender 1%nat None; PageFirstRender 2%nat (Some double);
               PageEffect 1%nat; PageEffect 2%nat;
               PageUpdate (JNum 3);
               PageExternal {| storageArea := Some localStorage;
                               event_key := Some "k"; event_newValue := Some "7" |};
               PageUnmount 1%nat; PageUpdate (JFun (λ v, v + 1))] p in
  let p'' := page_run js_is_null js_typeof_function o
               [PageFirstRender 3%nat None; PageUpdate (JNum 9); PageEffect 3%nat]
               p' in
  (value (fst (fst p')) = JNum 8 ∧
   ∃ h, snd p' !! 2%nat = Some h ∧
        hook_state h = JNum 16 ∧
        hook_state h = stateUpdater (mapperRef h) (value (fst (fst p')))) ∧
  (value (fst (fst p'')) = JNum 9 ∧
   3%nat ∈ updaters (fst (fst p'')) ∧
   ∃ h, snd p'' !! 3%nat = Some h ∧ mapperRef h = None ∧ hook_state h = JNum 8).
Proof.
  split.
  - split; [reflexivity|]. eexists. split; [reflexivity|]. split; [reflexivity|].
    refine (proj1 page_run_hooks_current jsval js_is_null js_typeof_function
              (default_options (JNum 0) (Some "k") (Some localStorage))
              [PageFirstRender 1%nat None;
               PageFirstRender 2%nat
                 (Some (λ v, match ToNumber v with
                             | Some n => JNum (n * 2)
                             | None => JNaN
                             end));
               PageEffect 1%nat; PageEffect 2%nat;
               PageUpdate (JNum 3);
               PageExternal {| storageArea := Some localStorage;
                               event_key := Some "k"; event_newValue := Some "7" |};
               PageUnmount 1%nat; PageUpdate (JFun (λ v, v + 1))]
              ({| value := JNum 0; updaters := [] |},
               {| items := <[(localStorage, "k") := "0"]> ∅; listening := false;
                  log := [] |}, ∅) eq_refl _ 2%nat _ _ eq_refl).
    + intros u h Hu. simpl in Hu. by apply elem_of_nil in Hu.
    + apply list_elem_of_here.
  - refine (proj2 page_run_hooks_current jsval js_is_null js_typeof_function
              (default_options (JNum 0) (Some "k") (Some localStorage))
              3%nat None (JNum 9) _ _ _ _).
    intros Hin. apply list_elem_of_singleton in Hin. discriminate Hin.
Defined.

(** X13.  The mapper is bound late: re-rendering a mounted component with
    another mapper changes neither the instance, nor the registry, nor the
    state the component shows; the next update sets its state with the new
    mapper, although its updater was registered under the old one. *)
Theorem rerender_rebinds_mapper {V : Type} (is_null : V → bool)
    (typeof_function : V → option (V → V)) (o : SyncStateOptions V)
    (u : updater_id) (mapper : option (V → V)) (newValue : V)
    (i : instance V) (w : world V) (hooks : gmap updater_id (hook V)) (h : hook V) :
  u ∈ updaters i →
  hooks !! u = Some h →
  let p1 := page_step is_null typeof_function o (i, w, hooks) (PageRender u mapper) in
  let p2 := page_step is_null typeof_function o p1 (PageUpdate newValue) in
  fst p1 = (i, w) ∧
  (∃ h1, snd p1 !! u = Some h1 ∧ hook_state h1 = hook_state h ∧
         mapperRef h1 = mapper) ∧
  (∃ h2, snd p2 !! u = Some h2 ∧
         hook_state h2 = stateUpdater mapper (value (fst (fst p2)))).
Proof.
  intros Hu Hh p1 p2. subst p2 p1.
  assert (alter (useSyncValue_rerender mapper) u hooks !! u
          = Some (useSyncValue_rerender mapper h)) as Hh1.
  { rewrite lookup_alter, decide_True by done. by rewrite Hh. }
  split_and!; [done|by eexists|].
  cbn [page_step fst snd] in *.
  pose proof (page_update_hooks is_null typeof_function o newValue i w
                (alter (useSyncValue_rerender mapper) u hooks) u) as Hp.
  cbn [page_step fst snd] in Hp. rewrite Hp, Hh1.
  rewrite bool_decide_eq_true_2 by done. by eexists.
Qed.

(** A display mounted without a mapper and showing 4 is re-rendered with
    the doubling mapper: it still shows 4; after [update(5)] it shows 10. *)
Lemma rerender_rebinds_mapper_witness :
  let double := λ v, match ToNumber v with Some n => JNum (n * 2) | None => JNaN end in
  let i := {| value := JNum 4; updaters := [1%nat] |} in
  let w := {| items := (∅ : storage_items); listening := false; log := [] |} in
  let hooks : gmap updater_id (hook jsval) :=
    <[1%nat := {| mapperRef := None; hook_state := JNum 4 |}]> ∅ in
  let p1 := page_step js_is_null js_typeof_function counter (i, w, hooks)
              (PageRender 1%nat (Some double)) in
  let p2 := page_step js_is_null js_typeof_function counter p1
              (PageUpdate (JNum 5)) in
  fst p1 = (i, w) ∧
  (∃ h1, snd p1 !! 1%nat = Some h1 ∧ hook_state h1 = JNum 4 ∧
         mapperRef h1 = Some double) ∧
  (∃ h2, snd p2 !! 1%nat = Some h2 ∧ hook_state h2 = JNum 10).
Proof.
  refine (rerender_rebinds_mapper js_is_null js_typeof_function counter 1%nat
            (Some (λ v, match ToNumber v with
                        | Some n => JNum (n * 2)
                        | None => JNaN
                        end))
            (JNum 5)
            {| value := JNum 4; updaters := [1%nat] |}
            {| items := (∅ : storage_items); listening := false; log := [] |}
            (<[1%nat := {| mapperRef := None; hook_state := JNum 4 |}]> ∅)
            {| mapperRef := None; hook_state := JNum 4 |} _ _).
  - apply list_elem_of_here.
  - reflexivity.
Defined.

Lemma run_function_updates {V : Type} (is_null : V → bool)
    (typeof_function : V → option (V → V)) (o : SyncStateOptions V)
    (args : list V) (fs : list (V → V)) (s : instance V * world V) :
  Forall2 (λ a f, typeof_function a = Some f) args fs →
  value (fst (run is_null typeof_function o (map Update args) s)) =
    fold_left (λ v f, f v) fs (value (fst s)).
Proof.
  intros H. revert s. induction H as [|a f args fs Ha _ IH]; intros s; [done|].
  cbn [map run fold_left]. unfold run in IH. rewrite IH. cbn [step].
  by rewrite setSyncValue_value, Ha.
Qed.

(** X14.  Updates compose in order: a literal update replaces the value
    cell whatever the history before it was, and function updates after it
    apply one after the other to what the cell holds, so the cell ends with
    the functions folded over the literal. *)
Theorem run_updates_fold {V : Type} (is_null : V → bool)
    (typeof_function : V → option (V → V)) (o : SyncStateOptions V)
    (before : list (op V)) (x : V) (args : list V) (fs : list (V → V))
    (s : instance V * world V) :
  typeof_function x = None →
  Forall2 (λ a f, typeof_function a = Some f) args fs →
  value (fst (run is_null typeof_function o
                (before ++ Update x :: map Update args) s)) =
    fold_left (λ v f, f v) fs x.
Proof.
  intros Hx Hfs. unfold run. rewrite fold_left_app. cbn [fold_left].
  pose proof (run_function_updates is_null typeof_function o args fs
                (step is_null typeof_function o
                   (fold_left (step is_null typeof_function o) before s)
                   (Update x)) Hfs) as H.
  unfold run in H. rewrite H. cbn [step].
  by rewrite setSyncValue_value, Hx.
Qed.

(** The README's buttons: whatever came before, reset and three increments
    leave 3. *)
Lemma run_updates_fold_witness :
  let inc := JFun (λ v, v + 1) in
  value (fst (run js_is_null js_typeof_function counter
                ([Update (JNum 41); Mount 1%nat]
                 ++ Update (JNum 0) :: map Update [inc; inc; inc])
                ({| value := JNum 9; updaters := [] |},
                 {| items := ∅; listening := false; log := [] |}))) = JNum 3.
Proof.
  refine (run_updates_fold js_is_null js_typeof_function counter
            [Update (JNum 41); Mount 1%nat] (JNum 0)
            [JFun (λ v, v + 1); JFun (λ v, v + 1); JFun (λ v, v + 1)]
            (replicate 3 (λ x, match ToNumber x with
                               | Some n => JNum (n + 1)
                               | None => JNaN
                               end))
            ({| value := JNum 9; updaters := [] |},
             {| items := ∅; listening := false; log := [] |}) eq_refl _).
  repeat (constructor; [reflexivity|]). constructor.
Defined.

(** X16.  After a history in which every teardown runs for a mounted hook,
    an update calls exactly the updaters of the hooks mounted and not yet
    unmounted, each once, in the order in which they were mounted, all with
    the new content of the value cell. *)
Theorem update_calls_mounted_hooks_in_order {V : Type} (is_null : V → bool)
    (typeof_function : V → option (V → V)) (o : SyncStateOptions V)
    (ops : list (op V)) (newValue : V) (s : instance V * world V) :
  NoDup (updaters (fst s)) →
  lifecycle ops (updaters (fst s)) = true →
  let s1 := run is_null typeof_function o ops s in
  let s2 := step is_null typeof_function o s1 (Update newValue) in
  notifications (log (snd s2)) =
    notifications (log (snd s1)) ++
      map (λ u, (u, value (fst s2))) (attached ops (updaters (fst s))).
Proof.
  intros Hnd Hok s1 s2. subst s2 s1. cbn [step].
  destruct (run_attached is_null typeof_function o ops s Hnd Hok) as [<- _].
  rewrite setSyncValue_log. unfold notifications. rewrite !omap_app. f_equal.
  assert (∀ v (l : list updater_id),
            omap (λ e : effect V, match e with
                                  | CallUpdater u x => Some (u, x)
                                  | _ => None
                                  end) (map (λ u, CallUpdater u v) l)
            = map (λ u, (u, v)) l) as ->.
  { intros v l. induction l as [|x l IH]; cbn; [done|by f_equal]. }
  destruct (storage_and_key o) as [[st k]|]; cbn; apply app_nil_r.
Qed.

(** Hooks 1, 2, 3 mount, hook 1 unmounts, hook 1 mounts again: an update
    calls 2, 3, 1 in this order. *)
Lemma update_calls_mounted_hooks_in_order_witness :
  let s := ({| value := JNum 0; updaters := [] |},
            {| items := (∅ : storage_items); listening := false; log := [] |}) in
  let ops := [Mount 1%nat; Mount 2%nat; Mount 3%nat; Unmount 1%nat; Mount 1%nat] in
  let s1 := run js_is_null js_typeof_function counter ops s in
  let s2 := step js_is_null js_typeof_function counter s1 (Update (JNum 5)) in
  notifications (log (snd s2)) =
    [(2%nat, JNum 5); (3%nat, JNum 5); (1%nat, JNum 5)].
Proof.
  exact (update_calls_mounted_hooks_in_order js_is_null js_typeof_function counter
           [Mount 1%nat; Mount 2%nat; Mount 3%nat; Unmount 1%nat; Mount 1%nat]
           (JNum 5)
           ({| value := JNum 0; updaters := [] |},
            {| items := (∅ : storage_items); listening := false; log := [] |})
           (NoDup_nil_2 (A:=updater_id)) eq_refl).
Defined.
